(** * z3po-server: the search endpoint of [server.js]

    A shallow embedding of [src/server.js] and the properties of its
    retrieval and reconciliation engine.

    Modelling choices.
    - A JavaScript value is a [value]: the JSON values, [undefined], and the
      built-in objects and functions a property read can reach through
      [Object.prototype].  Objects are finite maps from property names to
      values (the order in which an object lists its properties is not
      modelled), arrays are lists.
    - A number is a rational in lowest terms ([Qc]).  Scores are finite
      doubles; the sign of [b - a] computed on doubles is the sign of the
      exact difference, which is all that the comparator of [sort] uses.
    - A string is a sequence of code units below 256, a Rocq [ascii] standing
      for the code unit of the same number.
    - An exception is a value of [except]: [Throw] carries the message (the
      texts of the engine's own [TypeError]s are abridged).
    - A property read throws on [undefined] and [null], and on a built-in
      function when the name is [caller] or [arguments]: these two are
      accessors of [Function.prototype] that throw a [TypeError].  No other
      read of the handler can throw; what such a read returns on a string, a
      number, a boolean or a built-in is left to the engine ([host_prop]).
    - The [Map] of the handler keeps insertion order: an association list.
    - A match of the index has a score, a finite number, and may have
      metadata, an object of JSON values: [metadata.source] is read from it,
      and the loop throws when there is no metadata or when the source is
      not a string.
    - [Array.prototype.sort] is the stable sort that ECMAScript 2019
      requires.
    - The body of a response is the value given to [res.json], before it is
      written as JSON text.
    - The embedding model, the Pinecone client and [JSON.parse] are not part
      of the repository: they are parameters. *)

From Stdlib Require Import QArith Qcanon ZArith String Ascii List DecimalString.
From Stdlib Require Import Sorting.Sorted DecimalPos.
From stdpp Require Import gmap strings list fin_maps numbers sorting.

#[local] Set Warnings "-register-all".
#[local] Open Scope string_scope.
#[local] Open Scope list_scope.
#[local] Open Scope stdpp_scope.

(** ** Values *)

Inductive value : Type :=
| VUndefined
| VNull
| VBool (b : bool)
| VNum (q : Qc)
| VStr (s : string)
| VArr (l : list value)
| VObj (o : gmap string value)
| VFunction (name : string)   (* a built-in function object *)
| VBuiltin (name : string).   (* a built-in object that is not a function *)

(** ** Exceptions *)

Inductive except (A : Type) : Type :=
| Ok (a : A)
| Throw (message : string).
Arguments Ok {A} a.
Arguments Throw {A} message.

#[global] Instance except_ret : MRet except := λ A a, Ok a.
#[global] Instance except_bind : MBind except := λ A B f m,
  match m with
  | Ok a => f a
  | Throw e => Throw e
  end.

(** ** Truthiness, [typeof], [Array.isArray] *)

Definition truthy (v : value) : bool :=
  match v with
  | VUndefined | VNull => false
  | VBool b => b
  | VNum q => negb (bool_decide (q = 0%Qc))
  | VStr s => negb (bool_decide (s = ""))
  | VArr _ | VObj _ | VFunction _ | VBuiltin _ => true
  end.

Definition is_string (v : value) : bool :=
  match v with
  | VStr _ => true
  | _ => false
  end.

(** [Array.prototype] is the one built-in object that is itself an array. *)
Definition isArray (v : value) : bool :=
  match v with
  | VArr _ => true
  | VBuiltin name => bool_decide (name = "Array.prototype")
  | _ => false
  end.

(** ** Strings *)

(** White space and line terminators of ECMAScript, among code units < 256:
    TAB, LF, VT, FF, CR, SP, NBSP. *)
Definition is_white_space (c : ascii) : bool :=
  bool_decide (nat_of_ascii c ∈ [9; 10; 11; 12; 13; 32; 160]%nat).

Fixpoint trim_start (s : string) : string :=
  match s with
  | String c s' => if is_white_space c then trim_start s' else s
  | EmptyString => EmptyString
  end.

Fixpoint trim_end (s : string) : string :=
  match s with
  | String c s' =>
      match trim_end s' with
      | EmptyString => if is_white_space c then EmptyString else String c EmptyString
      | t => String c t
      end
  | EmptyString => EmptyString
  end.

(** [s.trim()] *)
Definition trim (s : string) : string := trim_end (trim_start s).

Fixpoint whitespace_only (s : string) : bool :=
  match s with
  | String c s' => is_white_space c && whitespace_only s'
  | EmptyString => true
  end.

(** [s.split(sep)] for a non-empty separator: [skip] counts the code units of
    a separator just matched that are still to be passed over, [cur] is the
    part being read, last code unit first. *)
Fixpoint split_from (sep s : string) (skip : nat) (cur : list ascii) : list string :=
  match s with
  | EmptyString => [string_of_list_ascii (rev cur)]
  | String c s' =>
      match skip with
      | S k => split_from sep s' k cur
      | O =>
          if String.prefix sep s
          then string_of_list_ascii (rev cur) :: split_from sep s' (String.length sep - 1) []
          else split_from sep s' 0 (c :: cur)
      end
  end.

Definition split (sep s : string) : list string := split_from sep s 0 [].

(** Decimal rendering of an integer ([String(index)] in the template). *)
Definition number_to_string (n : Z) : string := NilZero.string_of_int (Z.to_int n).

(** *** [parseInt] with no radix argument *)

Definition digit_value (c : ascii) : option Z :=
  let n := Z.of_nat (nat_of_ascii c) in
  if (48 <=? n)%Z && (n <=? 57)%Z then Some (n - 48)%Z
  else if (97 <=? n)%Z && (n <=? 122)%Z then Some (n - 87)%Z
  else if (65 <=? n)%Z && (n <=? 90)%Z then Some (n - 55)%Z
  else None.

(** The value of the longest prefix of [s] made of digits of [radix];
    [acc] is [None] until a digit has been read. *)
Fixpoint parse_digits (radix : Z) (s : string) (acc : option Z) : option Z :=
  match s with
  | String c s' =>
      match digit_value c with
      | Some d =>
          if (d <? radix)%Z
          then parse_digits radix s' (Some (default 0 acc * radix + d)%Z)
          else acc
      | None => acc
      end
  | EmptyString => acc
  end.

(** [parseInt(input)]: [None] is [NaN].  The result is the exact integer; the
    engine rounds it to a double, which changes nothing below 2^53, and an
    array has fewer than 2^32 elements. *)
Definition parseInt (input : string) : option Z :=
  let s := trim_start input in
  let '(sign, s) :=
    match s with
    | String "-" r => ((-1)%Z, r)
    | String "+" r => (1%Z, r)
    | _ => (1%Z, s)
    end in
  let '(radix, s) :=
    match s with
    | String "0" (String "x" r) | String "0" (String "X" r) => (16%Z, r)
    | _ => (10%Z, s)
    end in
  match parse_digits radix s None with
  | Some n => Some (sign * n)%Z
  | None => None
  end.

(** ** Property reads *)

(** The properties every plain object inherits from [Object.prototype]:
    the constructor [Object] and ten methods, all functions, and
    [__proto__], which is [Object.prototype] itself. *)
Definition Object_prototype : gmap string value :=
  list_to_map
    (("constructor", VFunction "Object")
     :: ("__proto__", VBuiltin "Object.prototype")
     :: map (λ k, (k, VFunction ("Object.prototype." +:+ k)))
          ["hasOwnProperty"; "isPrototypeOf"; "propertyIsEnumerable";
           "toLocaleString"; "toString"; "valueOf";
           "__defineGetter__"; "__defineSetter__";
           "__lookupGetter__"; "__lookupSetter__"]).

(** A value used as a property name or as text: [pathParts[1]] is a string or
    [undefined]. *)
Definition ToString (k : option string) : string :=
  match k with
  | Some s => s
  | None => "undefined"
  end.

(** The text of a value that is a string. *)
Definition ToString_value (v : value) : string :=
  match v with
  | VStr s => s
  | _ => ""
  end.

Definition of_option (k : option string) : value :=
  match k with
  | Some s => VStr s
  | None => VUndefined
  end.

(** [arr[index]] for an integer [index]. *)
Definition get_index (arr : value) (index : Z) : value :=
  match arr with
  | VArr l => if (0 <=? index)%Z then default VUndefined (l !! Z.to_nat index) else VUndefined
  | _ => VUndefined
  end.

(** The names that [Function.prototype] defines as accessors that throw:
    a built-in function has no such property of its own, so a read of one of
    them on it ends in the accessor. *)
Definition restricted (k : string) : bool := bool_decide (k ∈ ["caller"; "arguments"]).

Definition restricted_message : string :=
  "'caller', 'callee', and 'arguments' properties may not be accessed on strict mode functions or the arguments objects for calls to them".

(** ** The parts of a source tag (lines 91-94) *)

Definition pathParts (source : string) : list string := split " > " source.

(** [pathParts[0]] and [pathParts[1]]: [None] is [undefined]. *)
Definition category (source : string) : option string := pathParts source !! 0%nat.
Definition guideKeyOrIndex (source : string) : option string := pathParts source !! 1%nat.

(** ** Matches and the [Map] of retrieved guides *)

(** A match of the Pinecone response: [match.score] and [match.metadata],
    which is an object of JSON values or [undefined] ([None]). *)
Record Match : Type := { score : Qc; metadata : option (gmap string value) }.

(** Lines 90-91: [match.metadata.source], as the string on which [split] is
    then called.  The read throws when there is no metadata; the call throws
    when [source] is not a string: no other JSON value has a method
    [split]. *)
Definition source (m : Match) : except string :=
  match metadata m with
  | None => Throw "Cannot read properties of undefined (reading 'source')"
  | Some md =>
      match md !! "source" with
      | Some (VStr s) => Ok s
      | None | Some VUndefined => Throw "Cannot read properties of undefined (reading 'split')"
      | Some VNull => Throw "Cannot read properties of null (reading 'split')"
      | Some _ => Throw "source.split is not a function"
      end
  end.

(** [retrievedGuides]: keys are values of [uniqueId] (a string, or
    [undefined] as [None]), in insertion order. *)
Definition Map : Type := list (option string * value).

Definition Map_has (uniqueId : option string) (m : Map) : bool :=
  bool_decide (uniqueId ∈ map fst m).

(** [m.set(uniqueId, v)], called by the handler on absent keys only. *)
Definition Map_set (uniqueId : option string) (v : value) (m : Map) : Map :=
  if Map_has uniqueId m
  then map (λ e, if bool_decide (e.1 = uniqueId) then (uniqueId, v) else e) m
  else m ++ [(uniqueId, v)].

Definition Map_values (m : Map) : list value := map snd m.

(** ** Object literals *)

Definition index_keys (l : list value) : gmap string value :=
  list_to_map (imap (λ i x, (number_to_string (Z.of_nat i), x)) l).

Definition code_units (s : string) : list value :=
  map (λ c, VStr (String c EmptyString)) (list_ascii_of_string s).

(** The own enumerable properties that [...guide] copies. *)
Definition own_enumerable (guide : value) : gmap string value :=
  match guide with
  | VObj o => o
  | VArr l => index_keys l
  | VStr s => index_keys (code_units s)
  | _ => ∅
  end.

(** [{ id: uniqueId, ...guide, score: match.score }]: the properties are
    defined from left to right, a later one replacing an earlier one of the
    same name. *)
Definition result_object (uniqueId : option string) (guide : value) (match_score : Qc) : value :=
  VObj (<["score" := VNum match_score]>
          (own_enumerable guide ∪ <["id" := of_option uniqueId]> ∅)).

(** ** [Array.prototype.sort] *)

(** [a.score] of an element of [results]: the number the object literal
    stored under [score] (the other cases do not arise, see
    [result_object_score]). *)
Definition score_of (a : value) : Qc :=
  match a with
  | VObj o =>
      match o !! "score" with
      | Some (VNum q) => q
      | _ => 0%Qc
      end
  | _ => 0%Qc
  end.

(** [(a, b) => b.score - a.score] *)
Definition compareFn (a b : value) : Qc := (score_of b - score_of a)%Qc.

Section Sort.
Context {A : Type} (compare : A → A → Qc).

(** [x] goes before the first element it must precede; it does not pass an
    element that compares equal to it. *)
Fixpoint sort_insert (x : A) (l : list A) : list A :=
  match l with
  | [] => [x]
  | y :: l' =>
      if bool_decide (compare x y ≤ 0)%Qc then x :: y :: l' else y :: sort_insert x l'
  end.

(** The stable sort that ECMAScript requires of [sort]: an element moves
    behind another one only if the comparator returns a positive number. *)
Definition sort (l : list A) : list A := foldr sort_insert [] l.

End Sort.

(** ** The server *)

Definition vector : Type := list Qc.

(** [pipe(query, { pooling: 'mean', normalize: true })], then
    [Array.from(queryEmbedding.data)]. *)
Definition pipeline : Type := string → except vector.

(** [pinecone.index(name).query({ topK, vector, includeMetadata: true })],
    then [response.matches]. *)
Definition Pinecone : Type := string → nat → vector → except (list Match).

Inductive call : Type :=
| CallPipe (query : string)
| CallIndexQuery (index_name : string) (topK : nat) (queryVector : vector).

(** The module-level variables [pinecone], [pipe], [guideData]. *)
Record globals : Type := {
  pinecone : option Pinecone;
  pipe : option pipeline;
  guideData : value
}.

Definition globals_init : globals :=
  {| pinecone := None; pipe := None; guideData := VUndefined |}.

Record environment : Type := {
  env_PINECONE_API_KEY : option string;  (* process.env.PINECONE_API_KEY *)
  env_NODE_ENV : option string;          (* process.env.NODE_ENV *)
  data_json : option string              (* the text of ./data.json, if the file exists *)
}.

Definition PINECONE_INDEX_NAME : string := "bmw-z3-guide".

(** [process.env.NODE_ENV || 'development'] *)
Definition NODE_ENV (e : environment) : string :=
  match env_NODE_ENV e with
  | Some s => if bool_decide (s = "") then "development" else s
  | None => "development"
  end.

(** What a handler does with a request: it sends a response, or it throws. *)
Inductive outcome : Type :=
| Sent (status : nat) (body : value)
| Uncaught (message : string).

Inductive startup : Type :=
| Running (g : globals)
| Exited (code : nat).

Definition nullish (v : value) : bool :=
  match v with
  | VUndefined | VNull => true
  | _ => false
  end.

Section Engine.

(** What the property reads that the data does not decide return: on
    strings, numbers, booleans, built-in objects and functions, and on arrays
    read by name.  It depends on the engine that runs the server. *)
Variable host_prop : value → string → value.

(** [v[k]] *)
Definition get (v : value) (k : string) : except value :=
  match v with
  | VUndefined => Throw "Cannot read properties of undefined"
  | VNull => Throw "Cannot read properties of null"
  | VObj o =>
      match o !! k with
      | Some x => Ok x
      | None => Ok (default VUndefined (Object_prototype !! k))
      end
  | VFunction _ =>
      if restricted k
      then Throw restricted_message
      else Ok (host_prop v k)
  | _ => Ok (host_prop v k)
  end.

(** *** Path resolution (lines 90-112)

    The result is the pair of [guide] and [uniqueId] after the [if]: both
    [undefined] unless a branch assigned them. *)
Definition resolve (guideData : value) (source : string) : except (value * option string) :=
  let category := category source in
  let guideKeyOrIndex := guideKeyOrIndex source in
  c ← get guideData (ToString category);
  if truthy c then
    if isArray c then
      match parseInt (ToString guideKeyOrIndex) with
      | Some index =>
          if truthy (get_index c index)
          then Ok (get_index c index,
                   Some (ToString category +:+ "-" +:+ number_to_string index))
          else Ok (VUndefined, None)
      | None => Ok (VUndefined, None)
      end
    else
      e ← get c (ToString guideKeyOrIndex);
      if truthy e then Ok (e, guideKeyOrIndex) else Ok (VUndefined, None)
  else Ok (VUndefined, None).

(** One turn of the [for] loop (lines 89-121). *)
Definition retrieve_step (guideData : value) (retrievedGuides : Map) (m : Match) : except Map :=
  source ← source m;
  '(guide, uniqueId) ← resolve guideData source;
  if truthy guide && negb (Map_has uniqueId retrievedGuides)
  then Ok (Map_set uniqueId (result_object uniqueId guide (score m)) retrievedGuides)
  else Ok retrievedGuides.

Fixpoint retrieve_loop (guideData : value) (retrievedGuides : Map) (matches : list Match) : except Map :=
  match matches with
  | [] => Ok retrievedGuides
  | m :: rest =>
      retrievedGuides' ← retrieve_step guideData retrievedGuides m;
      retrieve_loop guideData retrievedGuides' rest
  end.

(** Lines 88-126: from [response.matches] to the array given to [res.json]. *)
Definition reconcile (guideData : value) (matches : list Match) : except (list value) :=
  retrievedGuides ← retrieve_loop guideData [] matches;
  let results := sort compareFn (Map_values retrievedGuides) in
  Ok (take 5 results).

(** *** [POST /search]

    The three tests of line 70 are joined by [||]; the last one, on
    [query.trim()], matters for a string only, the second test holding of
    everything else. *)

Definition error_500 (node_env message error_message : string) : outcome :=
  Sent 500 (VObj (<["details" := if bool_decide (node_env = "development")
                                 then VStr error_message else VUndefined]>
                  (<["error" := VStr message]> ∅))).

Definition search (node_env : string) (g : globals) (body : value) : list call * outcome :=
  match pinecone g, pipe g, truthy (guideData g) with
  | Some pinecone, Some pipe, true =>
      match get body "query" with
      | Throw e => ([], Uncaught e)
      | Ok query =>
          if negb (truthy query) || negb (is_string query)
             || bool_decide (String.length (trim (ToString_value query)) = 0%nat)
          then ([], Sent 400 (VObj (<["error" := VStr "Valid query string is required"]> ∅)))
          else
            let query := ToString_value query in
            match pipe query with
            | Throw e =>
                ([CallPipe query], error_500 node_env "Failed to perform search." e)
            | Ok queryVector =>
                let calls := [CallPipe query; CallIndexQuery PINECONE_INDEX_NAME 15 queryVector] in
                match pinecone PINECONE_INDEX_NAME 15%nat queryVector with
                | Throw e => (calls, error_500 node_env "Failed to perform search." e)
                | Ok matches =>
                    match reconcile (guideData g) matches with
                    | Throw e => (calls, error_500 node_env "Failed to perform search." e)
                    | Ok results => (calls, Sent 200 (VArr results))
                    end
                end
            end
      end
  | _, _, _ =>
      ([], Sent 503 (VObj (<["details" := VStr (if truthy (guideData g)
                                               then "AI services not initialized"
                                               else "Data not loaded")]>
                           (<["error" := VStr "Server is not ready, please try again later."]> ∅))))
  end.

(** *** [GET /data] *)

Definition data (g : globals) : outcome :=
  if truthy (guideData g)
  then Sent 200 (VObj (<["bmw_z3_guide" := guideData g]> ∅))
  else Sent 503 (VObj (<["error" := VStr "Server is not ready, please try again later."]> ∅)).

(** *** [initialize] *)

Variable JSON_parse : string → except value.
(** [new Pinecone({ apiKey })] *)
Variable new_Pinecone : option string → except Pinecone.
(** [import('@xenova/transformers')], then [pipeline(...)] *)
Variable load_pipeline : except pipeline.

(** The [try] block: the globals as the block leaves them, and the message
    of the error it threw, if any. *)
Definition initialize_try (e : environment) (g : globals) : globals * option string :=
  if bool_decide (env_PINECONE_API_KEY e = Some "YOUR_API_KEY")
  then (g, Some "Please set PINECONE_API_KEY environment variable")
  else
    match data_json e with
    | None => (g, Some "data.json file not found")
    | Some text =>
        match parsed ← JSON_parse text; get parsed "bmw_z3_guide" with
        | Throw err => (g, Some err)
        | Ok data =>
            let g := {| pinecone := pinecone g; pipe := pipe g; guideData := data |} in
            (* Object.keys(guideData) *)
            if nullish data then (g, Some "Cannot convert undefined or null to object")
            else
              match new_Pinecone (env_PINECONE_API_KEY e) with
              | Throw err => (g, Some err)
              | Ok client =>
                  let g := {| pinecone := Some client; pipe := pipe g; guideData := guideData g |} in
                  match load_pipeline with
                  | Throw err => (g, Some err)
                  | Ok p =>
                      ({| pinecone := pinecone g; pipe := Some p; guideData := guideData g |}, None)
                  end
              end
        end
    end.

Definition initialize (e : environment) : startup :=
  match initialize_try e globals_init with
  | (g, None) => Running g
  | (g, Some _) =>
      if negb (bool_decide (NODE_ENV e = "production")) then Exited 1 else Running g
  end.

End Engine.

(** ** Notions used to state the properties *)

(** What the loop keeps of a source tag: the [uniqueId] and the guide, when
    the resolution ends with a truthy [guide]. *)
Definition resolved (host_prop : value → string → value) (guideData : value)
    (source : string) : option (option string * value) :=
  match resolve host_prop guideData source with
  | Ok (guide, uniqueId) => if truthy guide then Some (uniqueId, guide) else None
  | Throw _ => None
  end.

(** The tag resolves to nothing: the resolution ends, without an error,
    with [guide] and [uniqueId] undefined. *)
Definition unresolvable (host_prop : value → string → value) (guideData : value)
    (source : string) : Prop :=
  resolve host_prop guideData source = Ok (VUndefined, None).

(** What the loop keeps of a match: nothing when the match has no source
    tag. *)
Definition resolved_match (host_prop : value → string → value) (guideData : value)
    (m : Match) : option (option string * value) :=
  match source m with
  | Ok tag => resolved host_prop guideData tag
  | Throw _ => None
  end.

Definition resolves_to (host_prop : value → string → value) (guideData : value)
    (uniqueId : option string) (m : Match) : Prop :=
  fst <$> resolved_match host_prop guideData m = Some uniqueId.

(** The match is dropped: it has a source tag, and the tag resolves to
    nothing. *)
Definition dropped (host_prop : value → string → value) (guideData : value)
    (m : Match) : Prop :=
  ∃ tag, source m = Ok tag ∧ unresolvable host_prop guideData tag.

(** The error that lines 90-112 throw on a match, if they throw. *)
Definition step_error (host_prop : value → string → value) (guideData : value)
    (m : Match) : option string :=
  match tag ← source m; resolve host_prop guideData tag with
  | Throw e => Some e
  | Ok _ => None
  end.

(** The error of the first match on which the loop throws. *)
Definition first_error (host_prop : value → string → value) (guideData : value)
    (matches : list Match) : option string :=
  head (omap (step_error host_prop guideData) matches).

(** A read of [caller] or [arguments] on a built-in function. *)
Definition restricted_read (v : value) (k : string) : Prop :=
  (∃ name, v = VFunction name) ∧ restricted k = true.

(** The match has no string under [metadata.source]. *)
Definition no_source (m : Match) : Prop := ∃ e, source m = Throw e.

#[global] Instance resolves_to_dec host_prop guideData uniqueId m :
  Decision (resolves_to host_prop guideData uniqueId m).
Proof. unfold resolves_to. apply _. Defined.

(** The first match of the list that resolves to [uniqueId], with its
    position. *)
Definition first_match (host_prop : value → string → value) (guideData : value)
    (uniqueId : option string) (matches : list Match) : option (nat * Match) :=
  list_find (resolves_to host_prop guideData uniqueId) matches.

(** [uniqueId] [u1] is first seen in the match list before [u2] is. *)
Definition seen_before (host_prop : value → string → value) (guideData : value)
    (matches : list Match) (u1 u2 : option string) : Prop :=
  ∃ i1 m1 i2 m2,
    first_match host_prop guideData u1 matches = Some (i1, m1) ∧
    first_match host_prop guideData u2 matches = Some (i2, m2) ∧
    i1 < i2.

(** The match list is in non-increasing order of score. *)
Definition descending (matches : list Match) : Prop :=
  StronglySorted (λ a b, (score b ≤ score a)%Qc) matches.

(** One turn of the loop on a match on which it does not throw. *)
Definition keep (host_prop : value → string → value) (guideData : value)
    (retrievedGuides : Map) (m : Match) : Map :=
  match resolved_match host_prop guideData m with
  | Some (uniqueId, guide) =>
      if Map_has uniqueId retrievedGuides then retrievedGuides
      else retrievedGuides ++ [(uniqueId, result_object uniqueId guide (score m))]
  | None => retrievedGuides
  end.

(** The order of a sorted array: by decreasing key and, among equal keys,
    in the order [before]. *)
Definition ranked {A : Type} (key : A → Qc) (before : relation A) (a b : A) : Prop :=
  (key b < key a)%Qc ∨ (key a = key b ∧ before a b).

(** The response with the [uniqueId] of each result: the first five entries
    of the [Map] in the order of the sort. *)
Definition ranked_entries (host_prop : value → string → value) (guideData : value)
    (matches : list Match) : list (option string * value) :=
  take 5 (sort (λ e1 e2, compareFn e1.2 e2.2) (foldl (keep host_prop guideData) [] matches)).

(** An own property of an object. *)
Definition field (r : value) (k : string) : option value := own_enumerable r !! k.

(** The server is ready: the three globals are set (line 62). *)
Definition ready (g : globals) : Prop :=
  is_Some (pinecone g) ∧ is_Some (pipe g) ∧ truthy (guideData g) = true.

(** The matches the Similarity Index returned for the query of [body]. *)
Definition index_response (host_prop : value → string → value) (g : globals)
    (body : value) (matches : list Match) : Prop :=
  ∃ client p query queryVector,
    pinecone g = Some client ∧ pipe g = Some p ∧
    get host_prop body "query" = Ok (VStr query) ∧
    p query = Ok queryVector ∧
    client PINECONE_INDEX_NAME 15%nat queryVector = Ok matches.

(** What the [Map] holds after the loop has read [ms]: one entry for each
    [uniqueId] that a match of [ms] resolves to, made from the first such
    match, the entries being in the order in which the [uniqueId]s are first
    seen. *)
Record loop_invariant (host_prop : value → string → value) (guideData : value)
    (ms : list Match) (rg : Map) : Prop := {
  inv_keys : NoDup (map fst rg);
  inv_first : ∀ u r, (u, r) ∈ rg →
    ∃ i m guide, first_match host_prop guideData u ms = Some (i, m) ∧
                 resolved_match host_prop guideData m = Some (u, guide) ∧
                 r = result_object u guide (score m);
  inv_all : ∀ u, is_Some (first_match host_prop guideData u ms) → u ∈ map fst rg;
  inv_order : StronglySorted (λ e1 e2, seen_before host_prop guideData ms e1.1 e2.1) rg
}.

(** [c] occurs in [s]. *)
Fixpoint contains (c : ascii) (s : string) : bool :=
  match s with
  | String x s' => Ascii.eqb x c || contains c s'
  | EmptyString => false
  end.

(** The tags that cannot be resolved, by kind: an unknown category, an index
    that is not a number or is out of range, a missing key, no delimiter.
    A name that [Object.prototype] defines is found by a property read even
    when the data does not have it, so it is neither an unknown category nor
    a missing key. *)
Inductive malformed (host_prop : value → string → value) (guideData : value)
    (source : string) : Prop :=
| unknown_category kb :
    guideData = VObj kb →
    kb !! ToString (category source) = None →
    Object_prototype !! ToString (category source) = None →
    malformed host_prop guideData source
| index_not_a_number l :
    get host_prop guideData (ToString (category source)) = Ok (VArr l) →
    parseInt (ToString (guideKeyOrIndex source)) = None →
    malformed host_prop guideData source
| index_out_of_range l index :
    get host_prop guideData (ToString (category source)) = Ok (VArr l) →
    parseInt (ToString (guideKeyOrIndex source)) = Some index →
    (index < 0 ∨ Z.of_nat (length l) ≤ index)%Z →
    malformed host_prop guideData source
| missing_key o :
    get host_prop guideData (ToString (category source)) = Ok (VObj o) →
    o !! ToString (guideKeyOrIndex source) = None →
    Object_prototype !! ToString (guideKeyOrIndex source) = None →
    malformed host_prop guideData source
| no_delimiter c :
    guideKeyOrIndex source = None →
    get host_prop guideData (ToString (category source)) = Ok c →
    match c with
    | VArr _ => True
    | VObj o => o !! "undefined" = None
    | _ => truthy c = false
    end →
    malformed host_prop guideData source.

(** The query that line 70 rejects: absent, not a string, or blank. *)
Definition invalid_query (query : value) : Prop :=
  query = VUndefined ∨ is_string query = false ∨ ∃ s, query = VStr s ∧ trim s = "".

(** A request without a valid query: it has no body at all, or the [query]
    of its body is absent, not a string, or blank. *)
Definition invalid_request (host_prop : value → string → value) (body : value) : Prop :=
  nullish body = true ∨
  ∃ query, get host_prop body "query" = Ok query ∧ invalid_query query.

(** The knowledge-base file cannot be used: it does not parse, or it has no
    [bmw_z3_guide]. *)
Definition data_invalid (host_prop : value → string → value)
    (JSON_parse : string → except value) (e : environment) : Prop :=
  ∃ text, data_json e = Some text ∧
    ∀ data, (parsed ← JSON_parse text; get host_prop parsed "bmw_z3_guide") = Ok data →
            nullish data = true.

Definition not_ready_body (details : string) : value :=
  VObj (<["details" := VStr details]>
          (<["error" := VStr "Server is not ready, please try again later."]> ∅)).

(** ** Sample data

    The runs below read the knowledge base and the request through their
    own properties only, so what the host answers plays no part in them. *)

Definition host_undefined : value → string → value := λ _ _, VUndefined.

Definition sample_categories : gmap string value :=
  {[ "Engine" := VArr [VObj {[ "title" := VStr "Oil change" ]};
                       VObj {[ "title" := VStr "Idle" ]};
                       VNull];
     "Tips" := VObj {[ "idle_speed" := VObj {[ "title" := VStr "Idle speed" ]};
                       "note" := VStr "" ]};
     "Parts" := VArr [VObj {[ "id" := VStr "oil-filter"; "title" := VStr "Oil filter" ]}] ]}.

Definition sample_guideData : value := VObj sample_categories.

(** A match whose metadata is [{ source: tag }]. *)
Definition tagged_match (s : Qc) (tag : string) : Match :=
  {| score := s; metadata := Some {[ "source" := VStr tag ]} |}.

Definition sample_matches : list Match :=
  [ tagged_match (Q2Qc (9 # 10)) "Engine > 1";
    tagged_match (Q2Qc (4 # 5)) "Engine > 0";
    tagged_match (Q2Qc (4 # 5)) "Tips > idle_speed";
    tagged_match (Q2Qc (7 # 10)) "Engine > 1";
    tagged_match (Q2Qc (3 # 5)) "Engine > 7";
    tagged_match (Q2Qc (1 # 2)) "Nowhere > 0";
    tagged_match (Q2Qc (2 # 5)) "Engine" ].

Definition sample_results : list value :=
  [ VObj {[ "id" := VStr "Engine-1"; "title" := VStr "Idle";
            "score" := VNum (Q2Qc (9 # 10)) ]};
    VObj {[ "id" := VStr "Engine-0"; "title" := VStr "Oil change";
            "score" := VNum (Q2Qc (4 # 5)) ]};
    VObj {[ "id" := VStr "idle_speed"; "title" := VStr "Idle speed";
            "score" := VNum (Q2Qc (4 # 5)) ]} ].

Definition sample_vector : vector := [Q2Qc (3 # 5); Q2Qc (4 # 5)].
Definition sample_pipe : pipeline := λ _, Ok sample_vector.
Definition sample_client (matches : list Match) : Pinecone := λ _ _ _, Ok matches.

Definition sample_globals (matches : list Match) : globals :=
  {| pinecone := Some (sample_client matches);
     pipe := Some sample_pipe;
     guideData := sample_guideData |}.

Definition sample_body (query : string) : value := VObj {[ "query" := VStr query ]}.

(** A [data.json] that holds the sample knowledge base (its text is not
    spelled out), and a client that, as the Pinecone client does, refuses a
    configuration without [apiKey]. *)
Definition sample_data_json : string := "(the sample knowledge base, as JSON text)".
Definition sample_JSON_parse : string → except value :=
  λ text,
    if bool_decide (text = sample_data_json)
    then Ok (VObj {[ "bmw_z3_guide" := sample_guideData ]})
    else Throw "Unexpected token in JSON".
Definition strict_Pinecone : option string → except Pinecone :=
  λ apiKey,
    match apiKey with
    | Some _ => Ok (sample_client sample_matches)
    | None => Throw "The client configuration must have required property: apiKey."
    end.
Definition sample_environment (key node_env : option string) : environment :=
  {| env_PINECONE_API_KEY := key; env_NODE_ENV := node_env;
     data_json := Some sample_data_json |}.

(** ** Notions used to state the further properties *)

(** [parts.join(sep)] *)
Fixpoint join (sep : string) (parts : list string) : string :=
  match parts with
  | [] => ""
  | x :: rest =>
      match rest with
      | [] => x
      | _ :: _ => x +:+ sep +:+ join sep rest
      end
  end.

(** [s.substring(n)] *)
Fixpoint drop_string (n : nat) (s : string) : string :=
  match n, s with
  | S k, String _ s' => drop_string k s'
  | _, _ => s
  end.

(** The [uniqueId]s that the matches resolve to, one for each match that
    resolves. *)
Definition uniqueIds (host_prop : value → string → value) (guideData : value)
    (matches : list Match) : list (option string) :=
  omap (λ m, fst <$> resolved_match host_prop guideData m) matches.

(** A pipeline and a client that throw, and a knowledge-base file whose
    [bmw_z3_guide] is the number 0. *)
Definition failing_pipe : pipeline := λ _, Throw "model not loaded".
Definition failing_client : Pinecone := λ _ _ _, Throw "index unreachable".
Definition zero_JSON_parse : string → except value :=
  λ _, Ok (VObj {[ "bmw_z3_guide" := VNum 0%Qc ]}).

(** Matches on which the loop throws: the second one has no metadata. *)
Definition throwing_matches : list Match :=
  [ tagged_match (Q2Qc (9 # 10)) "Engine > 1";
    {| score := Q2Qc (4 # 5); metadata := None |} ].

(** Two keyed categories that have a key in common. *)
Definition twin_guideData : value :=
  VObj {[ "Tips" := VObj {[ "oil" := VObj {[ "title" := VStr "Oil tip" ]} ]};
          "Specs" := VObj {[ "oil" := VObj {[ "title" := VStr "Oil spec" ]} ]} ]}.

(** * Properties *)

(** ** Property reads and path resolution *)

Section Resolution.
Context (host_prop : value → string → value).

(** A property read throws on [undefined] and [null], and on a built-in
    function read at [caller] or [arguments]; it throws on nothing else. *)
Lemma get_throw v k :
  (∃ e, get host_prop v k = Throw e) ↔ nullish v = true ∨ restricted_read v k.
Proof.
  unfold restricted_read. split.
  - intros [e He]. destruct v; simpl in *; try discriminate; auto.
    + destruct (o !! k); discriminate.
    + destruct (restricted k) eqn:Hk; [|discriminate]. right. eauto.
  - intros [Hv|[[name ->] Hk]].
    + destruct v; try discriminate; simpl; eauto.
    + simpl. rewrite Hk. eauto.
Qed.

Lemma truthy_not_nullish v : truthy v = true → nullish v = false.
Proof. by destruct v. Qed.

(** The JSON values that are not truthy. *)
Lemma falsy_json v :
  truthy v = false ↔
  v = VUndefined ∨ v = VNull ∨ v = VBool false ∨ v = VNum 0%Qc ∨ v = VStr "".
Proof.
  split.
  - destruct v as [| |[]|q|s| | | |]; simpl; try discriminate; auto.
    + intros H%negb_false_iff%bool_decide_eq_true. subst. auto 6.
    + intros H%negb_false_iff%bool_decide_eq_true. subst. auto 6.
  - intros [->|[->|[->|[->| ->]]]]; reflexivity.
Qed.

(** On a knowledge base that passed the readiness check, the path resolver
    throws exactly when one of its two property reads is a read of [caller]
    or [arguments] on a built-in function. *)
Lemma resolve_throw guideData source :
  truthy guideData = true →
  (∃ e, resolve host_prop guideData source = Throw e) ↔
  restricted_read guideData (ToString (category source)) ∨
  ∃ c, get host_prop guideData (ToString (category source)) = Ok c ∧
       restricted_read c (ToString (guideKeyOrIndex source)).
Proof.
  intros Hgd. unfold resolve.
  destruct (get host_prop guideData (ToString (category source))) as [c|e0] eqn:Hc; simpl.
  - split.
    + intros [e He]. right. exists c. split; [done|].
      destruct (truthy c) eqn:Htc; [|discriminate].
      destruct (isArray c) eqn:Harr.
      * destruct (parseInt _); [|discriminate].
        destruct (truthy (get_index c z)); discriminate.
      * destruct (get host_prop c (ToString (guideKeyOrIndex source))) as [x|e1] eqn:Hx;
          simpl in He; [destruct (truthy x); discriminate|].
        destruct (proj1 (get_throw c _) (ex_intro _ e1 Hx)) as [Hn|?]; [|done].
        rewrite (truthy_not_nullish _ Htc) in Hn. discriminate.
    + intros [Hr|(c' & [= <-] & [[name ->] Hk])].
      * destruct (proj2 (get_throw guideData (ToString (category source))) (or_intror Hr))
          as [e He]. congruence.
      * simpl. rewrite Hk. simpl. eauto.
  - split; [|eauto]. intros _.
    destruct (proj1 (get_throw guideData _) (ex_intro _ e0 Hc)) as [Hn|?]; [|by left].
    rewrite (truthy_not_nullish _ Hgd) in Hn. discriminate.
Qed.

(** What the path resolver returns is a truthy guide, or nothing. *)
Lemma resolve_result guideData source guide uniqueId :
  resolve host_prop guideData source = Ok (guide, uniqueId) →
  truthy guide = true ∨ (guide = VUndefined ∧ uniqueId = None).
Proof.
  unfold resolve.
  destruct (get host_prop guideData (ToString (category source))) as [c|e0]; simpl;
    [|discriminate].
  destruct (truthy c); [|intros [= <- <-]; auto].
  destruct (isArray c).
  - destruct (parseInt _); [|intros [= <- <-]; auto].
    destruct (truthy (get_index c z)) eqn:Ht; intros [= <- <-]; auto.
  - destruct (get host_prop c (ToString (guideKeyOrIndex source))) as [x|e1]; simpl;
      [|discriminate].
    destruct (truthy x) eqn:Ht; intros [= <- <-]; auto.
Qed.

Lemma resolve_array guideData source l :
  get host_prop guideData (ToString (category source)) = Ok (VArr l) →
  resolve host_prop guideData source =
    match parseInt (ToString (guideKeyOrIndex source)) with
    | Some index =>
        if truthy (get_index (VArr l) index)
        then Ok (get_index (VArr l) index,
                 Some (ToString (category source) +:+ "-" +:+ number_to_string index))
        else Ok (VUndefined, None)
    | None => Ok (VUndefined, None)
    end.
Proof. intros H. unfold resolve. rewrite H. reflexivity. Qed.

Lemma resolve_keyed guideData source o :
  get host_prop guideData (ToString (category source)) = Ok (VObj o) →
  resolve host_prop guideData source =
    let e := match o !! ToString (guideKeyOrIndex source) with
             | Some x => x
             | None => default VUndefined (Object_prototype !! ToString (guideKeyOrIndex source))
             end in
    if truthy e then Ok (e, guideKeyOrIndex source) else Ok (VUndefined, None).
Proof.
  intros H. unfold resolve. rewrite H. simpl.
  destruct (o !! _); reflexivity.
Qed.

Lemma get_index_in_bounds l index e :
  (0 ≤ index)%Z → l !! Z.to_nat index = Some e → get_index (VArr l) index = e.
Proof.
  intros H0 He. simpl. destruct (Z.leb_spec 0 index); [|lia]. by rewrite He.
Qed.

Lemma get_index_out_of_bounds l index :
  (index < 0 ∨ Z.of_nat (length l) ≤ index)%Z → get_index (VArr l) index = VUndefined.
Proof.
  intros H. simpl. destruct (Z.leb_spec 0 index); [|done].
  rewrite lookup_ge_None_2; [done|lia].
Qed.

(** Every inherited property of a plain object is truthy. *)
Lemma Object_prototype_truthy k b : Object_prototype !! k = Some b → truthy b = true.
Proof.
  intros H. apply (map_Forall_lookup_1 (λ _ v, truthy v = true) Object_prototype k b);
    [|exact H].
  apply (bool_decide_eq_true_1 (map_Forall (λ _ v, truthy v = true) Object_prototype)).
  by vm_compute.
Qed.

End Resolution.

(** ** Lists *)

Lemma StronglySorted_mono {A} (R1 R2 : relation A) l :
  (∀ x y, R1 x y → R2 x y) → StronglySorted R1 l → StronglySorted R2 l.
Proof.
  intros HR. induction 1 as [|x l _ IH Hx]; constructor; [done|].
  eapply Forall_impl; eauto.
Qed.

Lemma StronglySorted_take {A} (R : relation A) n l :
  StronglySorted R l → StronglySorted R (take n l).
Proof.
  intros H. rewrite <- (take_drop n l) in H. by apply StronglySorted_app_1_l in H.
Qed.

Lemma map_is_fmap {A B} (f : A → B) (l : list A) : map f l = f <$> l.
Proof. done. Qed.

(** ** The loop over the matches *)

Section Loop.
Context (host_prop : value → string → value) (guideData : value).

#[local] Abbreviation resolve := (resolve host_prop guideData).
#[local] Abbreviation resolved := (resolved host_prop guideData).
#[local] Abbreviation keep := (keep host_prop guideData).
#[local] Abbreviation first_match := (first_match host_prop guideData).
#[local] Abbreviation resolves_to := (resolves_to host_prop guideData).
#[local] Abbreviation retrieve_step := (retrieve_step host_prop guideData).
#[local] Abbreviation retrieve_loop := (retrieve_loop host_prop guideData).

Lemma Map_has_true u (rg : Map) : Map_has u rg = true ↔ u ∈ map fst rg.
Proof. unfold Map_has. apply bool_decide_eq_true. Qed.

Lemma Map_has_false u (rg : Map) : Map_has u rg = false ↔ u ∉ map fst rg.
Proof. unfold Map_has. apply bool_decide_eq_false. Qed.

Lemma Map_set_absent u v (rg : Map) : Map_has u rg = false → Map_set u v rg = rg ++ [(u, v)].
Proof. intros H. unfold Map_set. by rewrite H. Qed.

#[local] Abbreviation resolved_match := (resolved_match host_prop guideData).
#[local] Abbreviation step_error := (step_error host_prop guideData).
#[local] Abbreviation first_error := (first_error host_prop guideData).

(** One turn of the loop throws the error of lines 90-112, or goes on with
    the [Map] that [keep] gives. *)
Lemma retrieve_step_spec rg m :
  retrieve_step rg m =
    match step_error m with
    | Some e => Throw e
    | None => Ok (keep rg m)
    end.
Proof.
  unfold retrieve_step, step_error, keep, resolved_match, resolved.
  destruct (source m) as [tag|e]; simpl; [|done].
  destruct (resolve tag) as [[guide u]|e]; simpl; [|done].
  destruct (truthy guide); simpl; [|done].
  destruct (Map_has u rg) eqn:Hhas; simpl; [done|].
  by rewrite Map_set_absent.
Qed.

(** The loop throws the error of the first match on which a turn throws;
    when no turn throws, the [Map] is the one that [keep] builds. *)
Lemma retrieve_loop_spec ms : ∀ rg,
  retrieve_loop rg ms =
    match first_error ms with
    | Some e => Throw e
    | None => Ok (foldl keep rg ms)
    end.
Proof.
  unfold first_error.
  induction ms as [|m ms IH]; intros rg; simpl; [done|].
  rewrite retrieve_step_spec. destruct (step_error m); simpl; [done|]. apply IH.
Qed.

Lemma retrieve_loop_foldl ms rg rg' :
  retrieve_loop rg ms = Ok rg' → rg' = foldl keep rg ms.
Proof. rewrite retrieve_loop_spec. destruct (first_error ms); congruence. Qed.

Lemma first_error_None ms :
  first_error ms = None ↔ Forall (λ m, step_error m = None) ms.
Proof.
  unfold first_error. induction ms as [|m ms IH]; simpl.
  - split; [constructor|done].
  - rewrite Forall_cons. destruct (step_error m); simpl.
    + split; [done|]. by intros [? _].
    + rewrite IH. split; [done|]. by intros [_ ?].
Qed.

Lemma first_error_app ms1 ms2 :
  first_error (ms1 ++ ms2) =
    match first_error ms1 with
    | Some e => Some e
    | None => first_error ms2
    end.
Proof.
  unfold first_error. induction ms1 as [|m ms1 IH]; simpl; [done|].
  by destruct (step_error m).
Qed.

(** A turn of the loop throws nothing on a match that resolves, to an entry
    or to nothing. *)
Lemma step_error_resolve m tag r :
  source m = Ok tag → resolve tag = Ok r → step_error m = None.
Proof. unfold step_error. intros -> Hr. simpl. by rewrite Hr. Qed.

Lemma unresolvable_resolved tag :
  unresolvable host_prop guideData tag → resolved tag = None.
Proof. unfold unresolvable, resolved. by intros ->. Qed.

(** A match that is dropped leaves the [Map] as it is. *)
Lemma keep_dropped rg m : dropped host_prop guideData m → keep rg m = rg.
Proof.
  intros (tag & Htag & Hu). unfold keep, resolved_match.
  by rewrite Htag, (unresolvable_resolved _ Hu).
Qed.

Lemma step_error_dropped m : dropped host_prop guideData m → step_error m = None.
Proof. intros (tag & Htag & Hu). by eapply step_error_resolve. Qed.

Lemma resolves_to_resolved u m :
  resolves_to u m ↔ ∃ guide, resolved_match m = Some (u, guide).
Proof.
  unfold resolves_to. destruct (resolved_match m) as [[u' g]|]; simpl.
  - split; [intros [= ->]; eauto|intros [g' [= -> _]]; done].
  - split; [done|intros [? ?]; done].
Qed.

(** A match that resolves to a [uniqueId] makes no turn of the loop throw. *)
Lemma step_error_resolves_to u m : resolves_to u m → step_error m = None.
Proof.
  intros [g Hg]%resolves_to_resolved.
  unfold resolved_match, resolved, step_error in *.
  destruct (source m) as [tag|e]; simpl in *; [|done].
  by destruct (resolve tag).
Qed.

(** Where a [uniqueId] is first seen does not change when matches are added
    at the end of the list. *)
Lemma first_match_snoc_old u ms m i x :
  first_match u ms = Some (i, x) → first_match u (ms ++ [m]) = Some (i, x).
Proof. apply list_find_app_l. Qed.

Lemma first_match_snoc_inv u ms m i x :
  first_match u (ms ++ [m]) = Some (i, x) →
  first_match u ms = Some (i, x) ∨
  (first_match u ms = None ∧ i = length ms ∧ x = m ∧ resolves_to u m).
Proof.
  unfold first_match. rewrite list_find_app_Some.
  intros [H|(Hle & Hnone & Hm)]; [by left|right].
  apply list_find_Some in Hm as (Hl & HP & _).
  destruct (i - length ms) as [|n] eqn:Hn; simpl in Hl; [|by destruct n].
  simplify_eq. split_and!; [done|lia|done|done].
Qed.

Lemma first_match_snoc_new u ms m :
  first_match u ms = None → resolves_to u m →
  first_match u (ms ++ [m]) = Some (length ms, m).
Proof.
  intros Hnone Hm. unfold first_match. rewrite list_find_app_Some. right.
  split_and!; [lia|done|]. rewrite Nat.sub_diag.
  apply list_find_Some. split_and!; [done|done|]. intros j y _ Hj. lia.
Qed.

Lemma first_match_lt u ms i x : first_match u ms = Some (i, x) → i < length ms.
Proof. intros (H & _)%list_find_Some. by eapply lookup_lt_Some. Qed.

#[local] Abbreviation loop_invariant := (loop_invariant host_prop guideData).

Lemma seen_before_snoc ms m u1 u2 :
  seen_before host_prop guideData ms u1 u2 →
  seen_before host_prop guideData (ms ++ [m]) u1 u2.
Proof.
  intros (i1 & m1 & i2 & m2 & H1 & H2 & Hlt).
  exists i1, m1, i2, m2. eauto using first_match_snoc_old.
Qed.

Lemma loop_invariant_nil : loop_invariant [] [].
Proof.
  split.
  - constructor.
  - intros u r H. by apply elem_of_nil in H.
  - intros u [x H]. discriminate.
  - constructor.
Qed.

Lemma loop_invariant_snoc ms rg m :
  loop_invariant ms rg → loop_invariant (ms ++ [m]) (keep rg m).
Proof.
  intros [Hkeys Hfirst Hall Horder].
  assert (Hmono : StronglySorted
            (λ e1 e2, seen_before host_prop guideData (ms ++ [m]) e1.1 e2.1) rg).
  { eapply StronglySorted_mono; [|exact Horder]. simpl. eauto using seen_before_snoc. }
  assert (Hfirst' : ∀ u r, (u, r) ∈ rg →
            ∃ i m0 guide, first_match u (ms ++ [m]) = Some (i, m0) ∧
                          resolved_match m0 = Some (u, guide) ∧
                          r = result_object u guide (score m0)).
  { intros u r Hin. destruct (Hfirst u r Hin) as (i & m0 & g & H1 & H2 & H3).
    exists i, m0, g. eauto using first_match_snoc_old. }
  unfold keep. destruct (resolved_match m) as [[u0 g0]|] eqn:Hres.
  - assert (Hm : resolves_to u0 m) by (apply resolves_to_resolved; eauto).
    destruct (Map_has u0 rg) eqn:Hhas.
    + apply Map_has_true in Hhas. split; [done|done| |done].
      intros u [[i x] Hx]. apply first_match_snoc_inv in Hx as [Hx|(_ & _ & _ & Hu)].
      * apply Hall. eauto.
      * unfold resolves_to in Hm, Hu. by simplify_eq.
    + apply Map_has_false in Hhas.
      assert (Hnone : first_match u0 ms = None).
      { destruct (first_match u0 ms) eqn:E; [|done]. destruct Hhas. apply Hall. eauto. }
      split.
      * rewrite map_app. apply NoDup_app. split_and!; [done| |apply NoDup_singleton].
        intros u Hu Hu'. simpl in Hu'. apply list_elem_of_singleton in Hu'. by subst.
      * intros u r [Hin|Hin%list_elem_of_singleton]%elem_of_app; [by apply Hfirst'|].
        simplify_eq. exists (length ms), m, g0.
        split_and!; [by apply first_match_snoc_new|done|done].
      * intros u [[i x] Hx]. rewrite map_app, elem_of_app.
        apply first_match_snoc_inv in Hx as [Hx|(_ & _ & _ & Hu)].
        -- left. apply Hall. eauto.
        -- right. simpl. apply list_elem_of_singleton.
           unfold resolves_to in Hm, Hu. by simplify_eq.
      * apply StronglySorted_app_2; [|done|repeat constructor].
        intros [u1 r1] e2 Hin ->%list_elem_of_singleton. simpl.
        destruct (Hfirst u1 r1 Hin) as (i & m1 & g1 & H1 & _).
        exists i, m1, (length ms), m.
        split_and!; [by apply first_match_snoc_old|by apply first_match_snoc_new|].
        by eapply first_match_lt.
  - split; [done|done| |done].
    intros u [[i x] Hx]. apply first_match_snoc_inv in Hx as [Hx|(_ & _ & _ & Hu)].
    + apply Hall. eauto.
    + apply resolves_to_resolved in Hu as [g Hg]. congruence.
Qed.

Lemma loop_invariant_foldl ms : loop_invariant ms (foldl keep [] ms).
Proof.
  induction ms as [|m ms IH] using rev_ind.
  - apply loop_invariant_nil.
  - rewrite foldl_snoc. by apply loop_invariant_snoc.
Qed.

End Loop.

(** ** The sort *)

Lemma Qc_sub_nonpos (a b : Qc) : (b - a ≤ 0)%Qc ↔ (b ≤ a)%Qc.
Proof.
  rewrite (Qcplus_le_mono_r (b - a) 0 a).
  replace (b - a + a)%Qc with b by ring.
  replace (0 + a)%Qc with a by ring. done.
Qed.

Section SortFacts.
Context {A : Type}.

Lemma sort_insert_perm (compare : A → A → Qc) x l : sort_insert compare x l ≡ₚ x :: l.
Proof.
  induction l as [|y l IH]; simpl; [done|].
  case_bool_decide; [done|]. rewrite IH. apply Permutation_swap.
Qed.

Lemma sort_perm (compare : A → A → Qc) l : sort compare l ≡ₚ l.
Proof.
  induction l as [|x l IH]; simpl; [done|].
  unfold sort in *. simpl. rewrite sort_insert_perm. by constructor.
Qed.

Lemma sort_length (compare : A → A → Qc) l : length (sort compare l) = length l.
Proof. apply Permutation_length, sort_perm. Qed.

(** Sorting commutes with a projection through which the comparator reads
    its arguments. *)
Lemma sort_fmap {B} (f : B → A) (compare : A → A → Qc) (l : list B) :
  map f (sort (λ a b, compare (f a) (f b)) l) = sort compare (map f l).
Proof.
  unfold sort. induction l as [|x l IH]; simpl; [done|].
  rewrite <- IH. generalize (foldr (sort_insert (λ a b, compare (f a) (f b))) [] l).
  intros k. induction k as [|y k IHk]; simpl; [done|].
  case_bool_decide; simpl; [done|]. by rewrite IHk.
Qed.

(** The order of the result: by decreasing key and, among equal keys, in
    the order [before] of the input. *)
Context (key : A → Qc) (before : relation A).

#[local] Abbreviation ranked := (ranked key before).

#[local] Abbreviation by_key := (λ a b : A, (key b - key a)%Qc).

Lemma ranked_key a b : ranked a b → (key b ≤ key a)%Qc.
Proof.
  intros [H|[-> _]]; [by apply Qclt_le_weak|apply Qcle_refl].
Qed.

Lemma sort_insert_ranked x l :
  StronglySorted ranked l → Forall (before x) l →
  StronglySorted ranked (sort_insert by_key x l).
Proof.
  induction 1 as [|y l Hl IH Hy]; intros Hx; simpl.
  - repeat constructor.
  - apply Forall_cons in Hx as [Hxy Hx]. case_bool_decide as Hc.
    + apply (proj1 (Qc_sub_nonpos _ _)) in Hc.
      assert (Hrxy : ranked x y).
      { destruct (Qcle_lt_or_eq _ _ Hc) as [Hlt|Heq]; [by left|right; done]. }
      constructor; [by constructor|].
      constructor; [done|].
      rewrite Forall_forall in Hy, Hx |- *. intros z Hz.
      pose proof (ranked_key _ _ (Hy z Hz)) as Hzy.
      destruct (Qcle_lt_or_eq _ _ (Qcle_trans _ _ _ Hzy Hc)) as [Hlt|Heq].
      * by left.
      * right. split; [done|]. by apply Hx.
    + constructor; [by apply IH|].
      rewrite (sort_insert_perm by_key x l). constructor; [|done].
      left. apply Qcnot_le_lt. intros Hle. apply Hc. by apply Qc_sub_nonpos.
Qed.

Lemma sort_ranked l :
  StronglySorted before l → StronglySorted ranked (sort by_key l).
Proof.
  unfold sort. induction 1 as [|x l Hl IH Hx]; simpl; [constructor|].
  apply sort_insert_ranked; [done|].
  fold (sort by_key l). by rewrite (sort_perm by_key l).
Qed.

End SortFacts.

Lemma StronglySorted_True {A} (l : list A) : StronglySorted (λ _ _, True) l.
Proof. induction l; constructor; [done|]. by apply Forall_true. Qed.

(** [sort] puts the keys in non-increasing order. *)
Lemma sort_descending {A} (key : A → Qc) (l : list A) :
  StronglySorted (λ a b, (key b ≤ key a)%Qc) (sort (λ a b, (key b - key a)%Qc) l).
Proof.
  eapply StronglySorted_mono; [|apply (sort_ranked key (λ _ _, True)), StronglySorted_True].
  intros x y. apply ranked_key.
Qed.

Lemma StronglySorted_lookup_lt {A} (R : relation A) l i j x y :
  StronglySorted R l → l !! i = Some x → l !! j = Some y → i < j → R x y.
Proof.
  intros Hl. revert i j. induction Hl as [|z l Hl IH Hz]; intros i j Hi Hj Hlt.
  - done.
  - destruct j as [|j]; [lia|]. simpl in Hj. destruct i as [|i]; simpl in Hi.
    + simplify_eq. rewrite Forall_forall in Hz. apply Hz. by eapply list_elem_of_lookup_2.
    + eapply IH; [done..|lia].
Qed.

(** ** The object literal *)

Lemma result_object_score_field u guide s :
  field (result_object u guide s) "score" = Some (VNum s).
Proof. unfold field, result_object. simpl. apply lookup_insert_eq. Qed.

Lemma result_object_score u guide s : score_of (result_object u guide s) = s.
Proof. unfold score_of, result_object. by rewrite lookup_insert_eq. Qed.

Lemma result_object_field u guide s k v :
  k ≠ "score" → field guide k = Some v → field (result_object u guide s) k = Some v.
Proof.
  intros Hk Hv. unfold field, result_object in *. simpl.
  rewrite lookup_insert_ne by done. by apply lookup_union_Some_l.
Qed.

Lemma result_object_id u guide s :
  field (result_object u guide s) "id" = Some (default (of_option u) (field guide "id")).
Proof.
  unfold field, result_object. simpl.
  rewrite lookup_insert_ne by done.
  destruct (own_enumerable guide !! "id") as [v|] eqn:Hid; simpl.
  - by apply lookup_union_Some_l.
  - rewrite lookup_union_r by done. by rewrite lookup_insert_eq.
Qed.

(** ** From the matches to the response *)

Section Reconcile.
Context (host_prop : value → string → value) (guideData : value).

#[local] Abbreviation entry_score := (λ e : option string * value, score_of e.2).

Lemma resolved_Some source u guide :
  resolved host_prop guideData source = Some (u, guide) ↔
  resolve host_prop guideData source = Ok (guide, u) ∧ truthy guide = true.
Proof.
  unfold resolved. destruct (resolve _ _ _) as [[g' u']|e].
  - destruct (truthy g') eqn:Hg; split.
    + intros [= -> ->]. done.
    + intros [[= -> ->] _]. done.
    + done.
    + intros [[= -> ->] ?]. congruence.
  - split; [done|]. intros [? _]. done.
Qed.

Lemma reconcile_inv ms rs :
  reconcile host_prop guideData ms = Ok rs →
  retrieve_loop host_prop guideData [] ms = Ok (foldl (keep host_prop guideData) [] ms) ∧
  rs = take 5 (sort compareFn (map snd (foldl (keep host_prop guideData) [] ms))).
Proof.
  unfold reconcile.
  destruct (retrieve_loop _ _ _ _) as [rg|e] eqn:Hloop; simpl; [|discriminate].
  intros [= <-]. apply retrieve_loop_foldl in Hloop as ->. done.
Qed.

(** The loop throws the error of the first match on which a turn throws;
    otherwise the result is the first five of the sorted values. *)
Lemma reconcile_spec ms :
  reconcile host_prop guideData ms =
    match first_error host_prop guideData ms with
    | Some e => Throw e
    | None => Ok (take 5 (sort compareFn (map snd (foldl (keep host_prop guideData) [] ms))))
    end.
Proof.
  unfold reconcile. rewrite retrieve_loop_spec.
  by destruct (first_error host_prop guideData ms).
Qed.

#[local] Abbreviation ranked_entries := (ranked_entries host_prop guideData).

Lemma ranked_entries_values ms rs :
  reconcile host_prop guideData ms = Ok rs → map snd (ranked_entries ms) = rs.
Proof.
  intros [_ ->]%reconcile_inv. unfold ranked_entries.
  change (map snd) with (fmap (M:=list) (@snd (option string) value)).
  rewrite fmap_take. f_equal. apply (sort_fmap snd compareFn).
Qed.

Lemma ranked_entries_subseteq ms :
  ranked_entries ms ⊆ foldl (keep host_prop guideData) [] ms.
Proof.
  unfold ranked_entries. etransitivity; [apply subseteq_take|].
  intros e He. by rewrite sort_perm in He.
Qed.

Lemma ranked_entries_sorted ms :
  StronglySorted
    (ranked entry_score (λ e1 e2, seen_before host_prop guideData ms e1.1 e2.1))
    (ranked_entries ms).
Proof.
  unfold ranked_entries. apply StronglySorted_take.
  apply (sort_ranked entry_score), loop_invariant_foldl.
Qed.

End Reconcile.

(** ** The search endpoint *)

Section Search.
Context (host_prop : value → string → value).

(** An array is sent by the last line of the [try] block only. *)
Lemma search_array node_env g body calls status rs :
  search host_prop node_env g body = (calls, Sent status (VArr rs)) →
  status = 200 ∧ truthy (guideData g) = true ∧
  ∃ matches, index_response host_prop g body matches ∧
             reconcile host_prop (guideData g) matches = Ok rs.
Proof.
  unfold search, error_500, index_response.
  destruct (pinecone g) as [client|]; [|discriminate].
  destruct (pipe g) as [p|]; [|discriminate].
  destruct (truthy (guideData g)); [|discriminate].
  destruct (get host_prop body "query") as [query|e] eqn:Hq; [|discriminate].
  destruct (negb (truthy query) || negb (is_string query)
            || bool_decide (String.length (trim (ToString_value query)) = 0)) eqn:Hv;
    [discriminate|].
  apply orb_false_iff in Hv as [[_ Hs%negb_false_iff]%orb_false_iff _].
  destruct query as [| | | |q| | | |]; try discriminate. simpl.
  destruct (p q) as [queryVector|e] eqn:Hp; [|discriminate].
  destruct (client PINECONE_INDEX_NAME 15 queryVector) as [matches|e] eqn:Hc; [|discriminate].
  destruct (reconcile _ _ matches) as [results|e] eqn:Hr; [|discriminate].
  intros [= <- <- <-]. split_and!; [done|done|].
  exists matches. split; [|done]. exists client, p, q, queryVector. done.
Qed.

End Search.

(** ** Blank strings *)

Lemma trim_start_blank s : whitespace_only s = true → trim_start s = "".
Proof.
  induction s as [|c s IH]; simpl; [done|].
  intros [Hc Hs]%andb_true_iff. rewrite Hc. by apply IH.
Qed.

Lemma trim_end_empty s : trim_end s = "" → whitespace_only s = true.
Proof.
  induction s as [|c s IH]; simpl; [done|].
  destruct (trim_end s); [|discriminate].
  destruct (is_white_space c); [|discriminate]. intros _. by rewrite IH.
Qed.

Lemma trim_start_not_blank s :
  trim_start s = "" ∨ ∃ c t, trim_start s = String c t ∧ is_white_space c = false.
Proof.
  induction s as [|c s IH]; simpl; [by left|].
  destruct (is_white_space c) eqn:Hc; [done|]. right. eauto.
Qed.

(** [query.trim().length === 0] holds of the strings made of white space. *)
Lemma trim_empty s : trim s = "" ↔ whitespace_only s = true.
Proof.
  unfold trim. split.
  - intros H. destruct (trim_start_not_blank s) as [Hs|(c & t & Hs & Hc)].
    + clear H. induction s as [|c s IH]; simpl in *; [done|].
      destruct (is_white_space c); [by apply IH|discriminate].
    + rewrite Hs in H. apply trim_end_empty in H. simpl in H.
      rewrite Hc in H. discriminate.
  - intros H. by rewrite trim_start_blank.
Qed.

(** ** Source tags *)

Lemma append_cons c a s : String c a +:+ s = String c (a +:+ s).
Proof. reflexivity. Qed.

Lemma append_empty_r s : s +:+ "" = s.
Proof. induction s as [|c s IH]; [done|]. by rewrite append_cons, IH. Qed.

Lemma string_of_list_ascii_snoc l c s :
  string_of_list_ascii (l ++ [c]) +:+ s = string_of_list_ascii l +:+ String c s.
Proof.
  induction l as [|x l IH]; [done|].
  cbn [app string_of_list_ascii]. by rewrite !append_cons, IH.
Qed.

Lemma prefix_delimiter_tail s :
  match s with
  | String c _ => c ≠ ">"%char
  | EmptyString => True
  end →
  String.prefix "> " s = false.
Proof.
  destruct s as [|c s]; cbn [String.prefix]; [done|]. intros Hc.
  destruct (ascii_dec ">" c) as [<-|]; [by destruct Hc|done].
Qed.

(** No delimiter starts inside a part that has no [>]. *)
Lemma prefix_delimiter_plain c s rest :
  contains ">" (String c s) = false →
  match rest with
  | String d _ => d ≠ ">"%char
  | EmptyString => True
  end →
  String.prefix " > " (String c (s +:+ rest)) = false.
Proof.
  cbn [contains]. intros [_ Hs]%orb_false_iff Hrest.
  cbn [String.prefix]. destruct (ascii_dec " " c); [|done].
  apply prefix_delimiter_tail. destruct s as [|d s]; [done|].
  rewrite append_cons. cbn [contains] in Hs.
  apply orb_false_iff in Hs as [Hd%Ascii.eqb_neq _]. done.
Qed.

Lemma split_from_plain s : ∀ cur,
  contains ">" s = false →
  split_from " > " s 0 cur = [string_of_list_ascii (rev cur) +:+ s].
Proof.
  induction s as [|c s IH]; intros cur Hs.
  - cbn [split_from]. by rewrite append_empty_r.
  - cbn [split_from].
    pose proof (prefix_delimiter_plain c s "" Hs I) as Hp.
    rewrite append_empty_r in Hp. rewrite Hp.
    rewrite IH; [|by apply orb_false_iff in Hs as [_ ?]].
    cbn [rev]. by rewrite string_of_list_ascii_snoc.
Qed.

Lemma prefix_delimiter rest :
  String.prefix " > " (String " " (String ">" (String " " rest))) = true.
Proof. by destruct rest. Qed.

Lemma split_from_tag cat rest : ∀ cur,
  contains ">" cat = false →
  split_from " > " (cat +:+ " > " +:+ rest) 0 cur =
    (string_of_list_ascii (rev cur) +:+ cat) :: split_from " > " rest 0 [].
Proof.
  induction cat as [|c cat IH]; intros cur Hcat.
  - rewrite append_empty_r.
    change ("" +:+ " > " +:+ rest) with (String " " (String ">" (String " " rest))).
    cbn [split_from]. by rewrite (prefix_delimiter rest).
  - rewrite append_cons. cbn [split_from].
    rewrite (prefix_delimiter_plain c cat (" > " +:+ rest) Hcat) by done.
    rewrite IH; [|by apply orb_false_iff in Hcat as [_ ?]].
    cbn [rev]. by rewrite string_of_list_ascii_snoc.
Qed.

(** A tag [<category> > <keyOrIndex>] whose parts have no [>] is split into
    these two parts. *)
Lemma pathParts_tag cat key :
  contains ">" cat = false → contains ">" key = false →
  pathParts (cat +:+ " > " +:+ key) = [cat; key].
Proof.
  intros Hcat Hkey. unfold pathParts, split.
  rewrite split_from_tag by done. by rewrite split_from_plain.
Qed.

Lemma tag_parts cat key :
  contains ">" cat = false → contains ">" key = false →
  category (cat +:+ " > " +:+ key) = Some cat ∧
  guideKeyOrIndex (cat +:+ " > " +:+ key) = Some key.
Proof.
  intros Hcat Hkey. unfold category, guideKeyOrIndex.
  by rewrite pathParts_tag.
Qed.

(** A tag with no [>] has a category and no key. *)
Lemma tag_without_delimiter source :
  contains ">" source = false →
  category source = Some source ∧ guideKeyOrIndex source = None.
Proof.
  intros Hs. unfold category, guideKeyOrIndex, pathParts, split.
  by rewrite split_from_plain.
Qed.

(** * The claims *)

Section Claims.
Context (host_prop : value → string → value).

#[local] Abbreviation unresolved := (Ok (VUndefined, None) : except (value * option string)).

(** C2, as the code has it.  In an array category the key is read by
    [parseInt]; the tag is unresolvable when that gives no number, when the
    index is out of bounds, and when the entry at the index is not truthy;
    otherwise the entry is returned with uniqueId [<category>-<index>].  In
    a keyed category an own key with a truthy entry gives that entry with
    the key as uniqueId; the tag is unresolvable when the entry is not
    truthy, and when the key is neither an own key nor a name that
    [Object.prototype] defines; a key that is not an own key and that
    [Object.prototype] defines gives the inherited value. *)
Theorem C2_resolve_by_category_kind guideData source c :
  get host_prop guideData (ToString (category source)) = Ok c →
  (∀ l, c = VArr l →
     (parseInt (ToString (guideKeyOrIndex source)) = None →
      resolve host_prop guideData source = unresolved) ∧
     (∀ index, parseInt (ToString (guideKeyOrIndex source)) = Some index →
        ((index < 0 ∨ Z.of_nat (length l) ≤ index)%Z →
         resolve host_prop guideData source = unresolved) ∧
        (∀ e, (0 ≤ index)%Z → l !! Z.to_nat index = Some e →
           resolve host_prop guideData source =
             if truthy e
             then Ok (e, Some (ToString (category source) +:+ "-" +:+ number_to_string index))
             else unresolved))) ∧
  (∀ o, c = VObj o →
     (∀ e, o !! ToString (guideKeyOrIndex source) = Some e →
        resolve host_prop guideData source =
          if truthy e then Ok (e, guideKeyOrIndex source) else unresolved) ∧
     (o !! ToString (guideKeyOrIndex source) = None →
      Object_prototype !! ToString (guideKeyOrIndex source) = None →
      resolve host_prop guideData source = unresolved) ∧
     (∀ b, o !! ToString (guideKeyOrIndex source) = None →
        Object_prototype !! ToString (guideKeyOrIndex source) = Some b →
        resolve host_prop guideData source = Ok (b, guideKeyOrIndex source))).
Proof.
  intros Hc. split.
  - intros l ->. rewrite (resolve_array _ _ _ _ Hc). split.
    + by intros ->.
    + intros index ->. split.
      * intros Hout. by rewrite get_index_out_of_bounds.
      * intros e H0 He. by rewrite (get_index_in_bounds _ _ _ H0 He).
  - intros o ->. rewrite (resolve_keyed _ _ _ _ Hc). simpl. split_and!.
    + by intros e ->.
    + by intros -> ->.
    + intros b -> Hb. rewrite Hb. simpl. by rewrite (Object_prototype_truthy _ _ Hb).
Qed.

(** C9: in a keyed category, a key that the mapping does not have but that
    names a property of [Object.prototype] is found by the property read:
    the tag resolves to the inherited value, with the key as uniqueId, and
    the loop keeps it. *)
Theorem C9_inherited_property_resolves guideData source o k b :
  get host_prop guideData (ToString (category source)) = Ok (VObj o) →
  guideKeyOrIndex source = Some k →
  o !! k = None →
  Object_prototype !! k = Some b →
  resolve host_prop guideData source = Ok (b, Some k) ∧
  resolved host_prop guideData source = Some (Some k, b) ∧
  ¬ unresolvable host_prop guideData source.
Proof.
  intros Hc Hk Ho Hb.
  assert (Hr : resolve host_prop guideData source = Ok (b, Some k)).
  { rewrite (resolve_keyed _ _ _ _ Hc), Hk. simpl. rewrite Ho, Hb. simpl.
    by rewrite (Object_prototype_truthy _ _ Hb). }
  assert (Hd : resolved host_prop guideData source = Some (Some k, b)).
  { apply resolved_Some. eauto using Object_prototype_truthy. }
  split_and!; [done|done|]. unfold unresolvable. rewrite Hr. intros [=].
Qed.

(** C10: an entry that is present at a valid index or key but is not truthy
    ([null], [false], [0], the empty string: [falsy_json]) resolves to
    nothing, as an index out of bounds or an absent key does, and the loop
    leaves the [Map] as it is. *)
Theorem C10_falsy_entry_dropped guideData m tag c e :
  source m = Ok tag →
  get host_prop guideData (ToString (category tag)) = Ok c →
  truthy e = false →
  (∃ l index, c = VArr l ∧
     parseInt (ToString (guideKeyOrIndex tag)) = Some index ∧
     (0 ≤ index)%Z ∧ l !! Z.to_nat index = Some e) ∨
  (∃ o, c = VObj o ∧ o !! ToString (guideKeyOrIndex tag) = Some e) →
  resolve host_prop guideData tag = unresolved ∧
  unresolvable host_prop guideData tag ∧
  ∀ retrievedGuides,
    retrieve_step host_prop guideData retrievedGuides m = Ok retrievedGuides.
Proof.
  intros Htag Hc He Hcase.
  assert (Hr : resolve host_prop guideData tag = unresolved).
  { destruct Hcase as [(l & index & -> & Hp & H0 & Hl)|(o & -> & Ho)].
    - rewrite (resolve_array _ _ _ _ Hc), Hp.
      by rewrite (get_index_in_bounds _ _ _ H0 Hl), He.
    - rewrite (resolve_keyed _ _ _ _ Hc), Ho. simpl. by rewrite He. }
  split_and!; [done|done|].
  intros rg. unfold retrieve_step. rewrite Htag. simpl. by rewrite Hr.
Qed.

(** What the parenthesis of C5 lists resolves to nothing, without an
    error. *)
Lemma malformed_unresolvable guideData source :
  malformed host_prop guideData source → unresolvable host_prop guideData source.
Proof.
  unfold unresolvable.
  intros [kb -> Hkb Hproto|l Hc Hp|l index Hc Hp Hout|o Hc Ho Hproto|c Hk Hc Hkind].
  - unfold resolve. simpl. by rewrite Hkb, Hproto.
  - by rewrite (resolve_array _ _ _ _ Hc), Hp.
  - by rewrite (resolve_array _ _ _ _ Hc), Hp, get_index_out_of_bounds.
  - by rewrite (resolve_keyed _ _ _ _ Hc), Ho, Hproto.
  - destruct c as [| |b|q|s|l|o|name|name]; simpl in Hkind;
      try (unfold resolve; rewrite Hc; simpl; simpl in Hkind; by rewrite ?Hkind).
    + by rewrite (resolve_array _ _ _ _ Hc), Hk.
    + rewrite (resolve_keyed _ _ _ _ Hc), Hk. simpl. by rewrite Hkind.
Qed.

Lemma foldl_keep_dropped guideData ms : ∀ rg,
  Forall (dropped host_prop guideData) ms →
  foldl (keep host_prop guideData) rg ms = rg.
Proof.
  induction ms as [|m ms IH]; intros rg Hall; simpl; [done|].
  apply Forall_cons in Hall as [Hm Hall].
  rewrite keep_dropped by done. by apply IH.
Qed.

(** The matches on which a turn of the loop throws: those that have no
    source tag, and those whose tag makes the path resolver throw. *)
Lemma step_error_Some guideData m :
  is_Some (step_error host_prop guideData m) ↔
  no_source m ∨
  ∃ tag, source m = Ok tag ∧ ∃ e, resolve host_prop guideData tag = Throw e.
Proof.
  unfold step_error, no_source.
  destruct (source m) as [tag|e0]; simpl.
  - destruct (resolve host_prop guideData tag) as [r|e] eqn:Hr.
    + split; [by intros [? [=]]|].
      intros [[e [=]]|(tag' & [= <-] & e & He)]. congruence.
    + split; [|by eauto]. intros _. right. exists tag. eauto.
  - split; [|by eauto]. intros _. left. eauto.
Qed.

(** C5, as the code has it.  A match whose tag is of one of the listed
    kinds resolves to nothing without an error, where a category or a key is
    unknown or missing when a property read does not find it: the names that
    [Object.prototype] defines are found.  A match that resolves to nothing
    is dropped: the result is the one of the list without it, and when every
    match is dropped the result is the empty array.  On a knowledge base that
    passed the readiness check, the loop throws on a match exactly when the
    match has no string under [metadata.source], or when its tag makes the
    resolver read [caller] or [arguments] on a built-in function, such as
    the [constructor] that every object inherits; a list of matches has a
    result exactly when the loop throws on none of them. *)
Theorem C5_unresolvable_tags_dropped guideData :
  truthy guideData = true →
  (∀ tag, malformed host_prop guideData tag → unresolvable host_prop guideData tag) ∧
  (∀ before m after,
     dropped host_prop guideData m →
     reconcile host_prop guideData (before ++ m :: after) =
     reconcile host_prop guideData (before ++ after)) ∧
  (∀ matches,
     Forall (dropped host_prop guideData) matches →
     reconcile host_prop guideData matches = Ok []) ∧
  (∀ m,
     is_Some (step_error host_prop guideData m) ↔
     no_source m ∨
     ∃ tag, source m = Ok tag ∧
       (restricted_read guideData (ToString (category tag)) ∨
        ∃ c, get host_prop guideData (ToString (category tag)) = Ok c ∧
             restricted_read c (ToString (guideKeyOrIndex tag)))) ∧
  (∀ matches,
     (∃ results, reconcile host_prop guideData matches = Ok results) ↔
     Forall (λ m, step_error host_prop guideData m = None) matches).
Proof.
  intros Hgd. split_and!.
  - apply malformed_unresolvable.
  - intros ms1 m ms2 Hm. rewrite !reconcile_spec, !first_error_app.
    change (m :: ms2) with ([m] ++ ms2).
    rewrite first_error_app. unfold first_error at 2. simpl.
    rewrite (step_error_dropped _ _ _ Hm). simpl.
    rewrite !foldl_app. simpl. by rewrite keep_dropped.
  - intros ms Hall. rewrite reconcile_spec.
    rewrite (proj2 (first_error_None _ _ ms)).
    + by rewrite foldl_keep_dropped.
    + eapply Forall_impl; [exact Hall|]. intros m. apply step_error_dropped.
  - intros m. rewrite step_error_Some.
    split; (intros [?|(tag & Htag & H)]; [by left|right; exists tag; split; [done|]]).
    + by apply resolve_throw.
    + by apply resolve_throw in H.
  - intros ms. rewrite reconcile_spec, <- first_error_None.
    destruct (first_error host_prop guideData ms); split; eauto; try done.
    by intros [? [=]].
Qed.

(** C3: an array sent by the search endpoint has at most five elements. *)
Theorem C3_at_most_five_results node_env g body calls status results :
  search host_prop node_env g body = (calls, Sent status (VArr results)) →
  (length results ≤ 5)%nat.
Proof.
  intros (_ & _ & ms & _ & Hr)%search_array.
  apply reconcile_inv in Hr as [_ ->]. rewrite length_take. lia.
Qed.

(** C1, as the code has it: the [Map] has one entry for each uniqueId that
    some match resolves to, every result comes from the [Map], and the entry
    of a uniqueId carries the score of the first match of the list that
    resolves to it.  When the list is in non-increasing order of score, no
    match that resolves to the same uniqueId has a higher score. *)
Theorem C1_first_match_wins guideData matches results :
  reconcile host_prop guideData matches = Ok results →
  ∃ retrievedGuides,
    retrieve_loop host_prop guideData [] matches = Ok retrievedGuides ∧
    results ⊆ map snd retrievedGuides ∧
    NoDup (map fst retrievedGuides) ∧
    (∀ uniqueId m, m ∈ matches → resolves_to host_prop guideData uniqueId m →
                   uniqueId ∈ map fst retrievedGuides) ∧
    (∀ uniqueId r, (uniqueId, r) ∈ retrievedGuides →
       ∃ i m, first_match host_prop guideData uniqueId matches = Some (i, m) ∧
              field r "score" = Some (VNum (score m)) ∧
              (descending matches →
               ∀ m', m' ∈ matches → resolves_to host_prop guideData uniqueId m' →
                     (score m' ≤ score m)%Qc)).
Proof.
  intros [Hloop ->]%reconcile_inv.
  destruct (loop_invariant_foldl host_prop guideData matches)
    as [Hkeys Hfirst Hall _].
  eexists. split_and!; [exact Hloop| |done| |].
  - etransitivity; [apply subseteq_take|]. intros r Hr. by rewrite sort_perm in Hr.
  - intros u m Hm Hu. apply Hall. by eapply list_find_elem_of.
  - intros u r Hin. destruct (Hfirst u r Hin) as (i & m & guide & Hfm & _ & ->).
    exists i, m. split_and!; [done|apply result_object_score_field|].
    intros Hdesc m' [j Hj]%list_elem_of_lookup_1 Hm'.
    apply list_find_Some in Hfm as (Hi & _ & Hleast).
    destruct (Nat.lt_trichotomy j i) as [Hlt|[->|Hgt]].
    + by destruct (Hleast j m' Hj Hlt).
    + simplify_eq. apply Qcle_refl.
    + exact (StronglySorted_lookup_lt _ _ _ _ _ _ Hdesc Hi Hj Hgt).
Qed.

(** C4: in an array sent by the search endpoint the scores do not increase
    from one position to the next, and results of equal score are in the
    order in which their uniqueIds are first seen in the match list.  Here
    [ids] gives the uniqueId of each result, as the [Map] has it. *)
Theorem C4_results_ranked node_env g body calls status results :
  search host_prop node_env g body = (calls, Sent status (VArr results)) →
  StronglySorted (λ a b, (score_of b ≤ score_of a)%Qc) results ∧
  Forall (λ r, field r "score" = Some (VNum (score_of r))) results ∧
  ∃ matches retrievedGuides ids,
    index_response host_prop g body matches ∧
    retrieve_loop host_prop (guideData g) [] matches = Ok retrievedGuides ∧
    length ids = length results ∧
    zip ids results ⊆ retrievedGuides ∧
    StronglySorted
      (ranked (λ e, score_of e.2)
              (λ e1 e2, seen_before host_prop (guideData g) matches e1.1 e2.1))
      (zip ids results).
Proof.
  intros (_ & _ & ms & Hindex & Hr)%search_array.
  pose proof (ranked_entries_values _ _ _ _ Hr) as Hvalues.
  pose proof (reconcile_inv _ _ _ _ Hr) as [Hloop Hrs].
  destruct (loop_invariant_foldl host_prop (guideData g) ms) as [_ Hfirst _ _].
  split_and!.
  - rewrite Hrs. apply StronglySorted_take, (sort_descending score_of).
  - rewrite <- Hvalues, map_is_fmap, Forall_fmap. apply Forall_forall.
    intros [u r] Hin%ranked_entries_subseteq. simpl.
    destruct (Hfirst u r Hin) as (i & m & guide & _ & _ & ->).
    by rewrite result_object_score, result_object_score_field.
  - exists ms, (foldl (keep host_prop (guideData g)) [] ms),
      (map fst (ranked_entries host_prop (guideData g) ms)).
    rewrite <- Hvalues, !map_is_fmap, zip_fst_snd, !length_fmap.
    split_and!; [done|done|done|apply ranked_entries_subseteq|apply ranked_entries_sorted].
Qed.

(** C8, as the code has it: every object of the array comes from the first
    match that resolves to its uniqueId; it has the fields of that entry,
    but for [score], with their values, a [score] field that is the score of
    that match, and an [id] field that is the [id] of the entry when the
    entry has one and the uniqueId otherwise. *)
Theorem C8_result_fields node_env g body calls status results :
  search host_prop node_env g body = (calls, Sent status (VArr results)) →
  ∃ matches,
    index_response host_prop g body matches ∧
    ∀ r, r ∈ results →
      ∃ uniqueId i m tag guide,
        first_match host_prop (guideData g) uniqueId matches = Some (i, m) ∧
        source m = Ok tag ∧
        resolve host_prop (guideData g) tag = Ok (guide, uniqueId) ∧
        truthy guide = true ∧
        (∀ k v, k ≠ "score" → field guide k = Some v → field r k = Some v) ∧
        field r "score" = Some (VNum (score m)) ∧
        field r "id" = Some (default (of_option uniqueId) (field guide "id")).
Proof.
  intros (_ & _ & ms & Hindex & Hr)%search_array.
  exists ms. split; [done|]. intros r Hin.
  rewrite <- (ranked_entries_values _ _ _ _ Hr), map_is_fmap in Hin.
  apply list_elem_of_fmap in Hin as ([u r'] & -> & Hin%ranked_entries_subseteq).
  destruct (loop_invariant_foldl host_prop (guideData g) ms) as [_ Hfirst _ _].
  destruct (Hfirst u r' Hin) as (i & m & guide & Hfm & Hkept & ->).
  unfold resolved_match in Hkept.
  destruct (source m) as [tag|] eqn:Htag; [|discriminate].
  apply resolved_Some in Hkept as [Hres Hg].
  exists u, i, m, tag, guide. simpl.
  split_and!; [done|done|done|done| | |].
  - intros k v. apply result_object_field.
  - apply result_object_score_field.
  - apply result_object_id.
Qed.

Lemma invalid_query_test query :
  invalid_query query →
  negb (truthy query) || negb (is_string query)
  || bool_decide (String.length (trim (ToString_value query)) = 0) = true.
Proof.
  intros [->|[Hs|(s & -> & Hs)]]; [done| |].
  - rewrite Hs. simpl. by rewrite orb_true_r.
  - simpl. rewrite Hs. simpl. by rewrite orb_true_r.
Qed.

(** C6, as the code has it: a request whose query is absent, not a string,
    or blank makes no call to the embedding model or to the index.  Before
    the server is ready, line 62 answers 503.  Once it is ready, the
    response is 400 with the error message when the request has a body; when
    it has none ([req.body] is [undefined] or [null]), line 69 throws, before
    the [try] block, and the handler sends nothing. *)
Theorem C6_invalid_query_rejected node_env g body :
  invalid_request host_prop body →
  (search host_prop node_env g body).1 = [] ∧
  (¬ ready g →
   (search host_prop node_env g body).2 =
     Sent 503 (not_ready_body (if truthy (guideData g)
                               then "AI services not initialized"
                               else "Data not loaded"))) ∧
  (ready g →
   (nullish body = false →
    (search host_prop node_env g body).2 =
      Sent 400 (VObj (<["error" := VStr "Valid query string is required"]> ∅))) ∧
   (nullish body = true →
    ∃ message, (search host_prop node_env g body).2 = Uncaught message)).
Proof.
  intros Hinv. unfold search, ready.
  destruct (pinecone g) as [client|]; [|by split_and!; [done|done|intros ([? ?] & _)]].
  destruct (pipe g) as [p|]; [|by split_and!; [done|done|intros (_ & [? ?] & _)]].
  destruct (truthy (guideData g)); [|by split_and!; [done|done|intros (_ & _ & ?)]].
  assert (Hready : is_Some (Some client) ∧ is_Some (Some p) ∧ true = true) by eauto.
  destruct Hinv as [Hbody|(query & Hq & Hquery%invalid_query_test)].
  - assert (Hthrow : ∃ e, get host_prop body "query" = Throw e)
      by (apply get_throw; auto).
    destruct Hthrow as [e ->]. simpl.
    split_and!; [done|by intros []|]. intros _. split; [congruence|eauto].
  - rewrite Hq, Hquery. simpl.
    split_and!; [done|by intros []|]. intros _. split; [done|].
    intros Hbody. destruct body; discriminate.
Qed.

Section Initialize.
Context (JSON_parse : string → except value).
Context (new_Pinecone : option string → except Pinecone).
Context (load_pipeline : except pipeline).

#[local] Abbreviation try_block :=
  (initialize_try host_prop JSON_parse new_Pinecone load_pipeline).
#[local] Abbreviation startup_of :=
  (initialize host_prop JSON_parse new_Pinecone load_pipeline).

(** The [try] block sets [pipe] last: after a failure it is not set. *)
Lemma initialize_try_failed e g error :
  try_block e globals_init = (g, Some error) → pipe g = None.
Proof.
  unfold initialize_try. intros H.
  repeat (case_match; simplify_eq/=); done.
Qed.

Lemma initialize_try_causes e g error :
  try_block e globals_init = (g, error) →
  env_PINECONE_API_KEY e = Some "YOUR_API_KEY" ∨ data_json e = None
    ∨ data_invalid host_prop JSON_parse e →
  is_Some error ∧ truthy (guideData g) = false.
Proof.
  unfold initialize_try, data_invalid. intros H Hcause.
  case_bool_decide as Hkey; [by simplify_eq/=|].
  destruct (data_json e) as [text|] eqn:Htext; [|by simplify_eq/=].
  destruct Hcause as [?|[?|(text' & [= <-] & Hdata)]]; [done..|].
  destruct (JSON_parse text ≫= _) as [data|err] eqn:Hparse; [|by simplify_eq/=].
  pose proof (Hdata data eq_refl) as Hnull. rewrite Hnull in H. simplify_eq/=.
  split; [by eexists|]. by destruct data.
Qed.

(** With the credential not set and a usable [data.json], the [try] block
    reaches the construction of the client: the knowledge base is loaded by
    then, and the block fails when the client refuses the missing key. *)
Lemma initialize_try_unset e g error text kb :
  try_block e globals_init = (g, error) →
  env_PINECONE_API_KEY e = None →
  data_json e = Some text →
  (parsed ← JSON_parse text; get host_prop parsed "bmw_z3_guide") = Ok kb →
  nullish kb = false →
  guideData g = kb ∧ ((∃ message, new_Pinecone None = Throw message) → is_Some error).
Proof.
  unfold initialize_try. intros H Hkey Htext Hparse Hnull.
  rewrite Hkey, Htext, Hparse, Hnull in H. simpl in H.
  destruct (new_Pinecone None) as [client|err]; simpl in H.
  - destruct load_pipeline as [p|err]; simplify_eq/=;
      (split; [done|]); by intros [? [=]].
  - simplify_eq/=. eauto.
Qed.

(** The [try] block fails on a credential that is not set when the client
    refuses it: before that, on the data file, or at the client. *)
Lemma initialize_try_missing_credential e g error :
  try_block e globals_init = (g, error) →
  (∃ message, new_Pinecone None = Throw message) →
  env_PINECONE_API_KEY e = None →
  is_Some error.
Proof.
  unfold initialize_try. intros H [message Hclient] Hkey.
  rewrite Hkey, Hclient in H. simpl in H.
  repeat (case_match; simplify_eq/=); eauto.
Qed.

(** C7, as the code has it.  Initialization fails when the credential is
    missing (it is not set, and the Pinecone client refuses to be built
    without it) or is the placeholder [YOUR_API_KEY], when [data.json] is
    missing, and when it does not parse or has no [bmw_z3_guide].  Any
    failure of the [try] block ends the process unless [NODE_ENV] is
    [production]; in production the server keeps running and the search
    endpoint answers 503.  The data endpoint answers 503 when the knowledge
    base is not loaded, which is so after a failure on the placeholder or on
    the data file; when only the credential is missing, the knowledge base
    is loaded before the client is built, and the data endpoint serves it. *)
Theorem C7_initialization_failure e g error :
  try_block e globals_init = (g, error) →
  ((∃ message, new_Pinecone None = Throw message) →
   env_PINECONE_API_KEY e = None → is_Some error) ∧
  (env_PINECONE_API_KEY e = Some "YOUR_API_KEY" ∨ data_json e = None
     ∨ data_invalid host_prop JSON_parse e →
   is_Some error ∧ truthy (guideData g) = false) ∧
  (is_Some error →
   (NODE_ENV e ≠ "production" → startup_of e = Exited 1) ∧
   (NODE_ENV e = "production" →
    startup_of e = Running g ∧
    (∀ node_env body,
       search host_prop node_env g body =
         ([], Sent 503 (not_ready_body (if truthy (guideData g)
                                        then "AI services not initialized"
                                        else "Data not loaded")))) ∧
    (truthy (guideData g) = false →
     data g = Sent 503 (VObj (<["error" := VStr "Server is not ready, please try again later."]> ∅))))) ∧
  (env_PINECONE_API_KEY e = None →
   ∀ text kb,
     data_json e = Some text →
     (parsed ← JSON_parse text; get host_prop parsed "bmw_z3_guide") = Ok kb →
     truthy kb = true →
     guideData g = kb ∧ data g = Sent 200 (VObj (<["bmw_z3_guide" := kb]> ∅))).
Proof.
  intros Htry. split_and!.
  - exact (initialize_try_missing_credential _ _ _ Htry).
  - by apply initialize_try_causes.
  - intros [msg ->]. pose proof (initialize_try_failed _ _ _ Htry) as Hpipe.
    unfold initialize. rewrite Htry. split.
    + intros Hne. by rewrite bool_decide_eq_false_2.
    + intros Hprod. rewrite bool_decide_eq_true_2 by done. simpl.
      split_and!; [done| |].
      * intros node_env body. unfold search. rewrite Hpipe.
        by destruct (pinecone g), (truthy (guideData g)).
      * intros Hgd. unfold data. by rewrite Hgd.
  - intros Hkey text kb Htext Hparse Hkb.
    destruct (initialize_try_unset _ _ _ _ _ Htry Hkey Htext Hparse
                (truthy_not_nullish _ Hkb)) as [Hg _].
    split; [done|]. unfold data. by rewrite Hg, Hkb.
Qed.

End Initialize.

End Claims.

(** * The claims on the sample data *)

Lemma C1_first_match_wins_witness :
  reconcile host_undefined sample_guideData sample_matches = Ok sample_results ∧
  ∃ retrievedGuides,
    retrieve_loop host_undefined sample_guideData [] sample_matches = Ok retrievedGuides ∧
    sample_results ⊆ map snd retrievedGuides ∧
    NoDup (map fst retrievedGuides).
Proof.
  assert (H : reconcile host_undefined sample_guideData sample_matches = Ok sample_results)
    by (vm_compute; reflexivity).
  split; [exact H|].
  destruct (C1_first_match_wins host_undefined _ _ _ H) as (rg & H1 & H2 & H3 & _).
  exists rg. auto.
Defined.

(** Two matches resolve to [Engine-0]; the entry has the score of the first
    one, 1/2, and the other one has the score 9/10. *)
Lemma C1_counterexample :
  reconcile host_undefined sample_guideData
    [ tagged_match (Q2Qc (1 # 2)) "Engine > 0";
      tagged_match (Q2Qc (9 # 10)) "Engine > 0" ]
  = Ok [ VObj {[ "id" := VStr "Engine-0"; "title" := VStr "Oil change";
                 "score" := VNum (Q2Qc (1 # 2)) ]} ].
Proof. vm_compute. reflexivity. Qed.

Lemma C2_resolve_by_category_kind_witness :
  get host_undefined sample_guideData (ToString (category "Engine > 1"))
  = Ok (VArr [VObj {[ "title" := VStr "Oil change" ]};
              VObj {[ "title" := VStr "Idle" ]};
              VNull]) ∧
  resolve host_undefined sample_guideData "Engine > 1"
  = Ok (VObj {[ "title" := VStr "Idle" ]}, Some "Engine-1").
Proof.
  assert (H : get host_undefined sample_guideData (ToString (category "Engine > 1"))
              = Ok (VArr [VObj {[ "title" := VStr "Oil change" ]};
                          VObj {[ "title" := VStr "Idle" ]};
                          VNull]))
    by (vm_compute; reflexivity).
  split; [exact H|].
  destruct (C2_resolve_by_category_kind host_undefined _ _ _ H) as [Harr _].
  destruct (Harr _ eq_refl) as [_ Hindex].
  destruct (Hindex 1%Z eq_refl) as [_ Hin].
  exact (Hin (VObj {[ "title" := VStr "Idle" ]}) (Z.le_0_1) eq_refl).
Defined.

(** [Engine > 2] names an index in bounds and [Tips > note] a key of the
    mapping, and neither resolves: the entries are [null] and the empty
    string.  [Tips > constructor] names no key of the mapping, and
    resolves. *)
Lemma C2_counterexample :
  (get host_undefined sample_guideData "Engine"
   = Ok (VArr [VObj {[ "title" := VStr "Oil change" ]};
               VObj {[ "title" := VStr "Idle" ]};
               VNull]) ∧
   parseInt "2" = Some 2%Z ∧
   resolve host_undefined sample_guideData "Engine > 2" = Ok (VUndefined, None)) ∧
  (get host_undefined sample_guideData "Tips"
   = Ok (VObj {[ "idle_speed" := VObj {[ "title" := VStr "Idle speed" ]};
                 "note" := VStr "" ]}) ∧
   resolve host_undefined sample_guideData "Tips > note" = Ok (VUndefined, None) ∧
   resolve host_undefined sample_guideData "Tips > constructor"
   = Ok (VFunction "Object", Some "constructor")).
Proof. vm_compute. repeat split. Qed.

Lemma C3_at_most_five_results_witness :
  search host_undefined "development" (sample_globals sample_matches)
    (sample_body "idle speed")
  = ([CallPipe "idle speed"; CallIndexQuery "bmw-z3-guide" 15 sample_vector],
     Sent 200 (VArr sample_results)) ∧
  (length sample_results ≤ 5)%nat.
Proof.
  assert (H : search host_undefined "development" (sample_globals sample_matches)
                (sample_body "idle speed")
              = ([CallPipe "idle speed"; CallIndexQuery "bmw-z3-guide" 15 sample_vector],
                 Sent 200 (VArr sample_results)))
    by (vm_compute; reflexivity).
  split; [exact H|].
  exact (C3_at_most_five_results host_undefined _ _ _ _ _ _ H).
Defined.

Lemma C4_results_ranked_witness :
  search host_undefined "development" (sample_globals sample_matches)
    (sample_body "idle speed")
  = ([CallPipe "idle speed"; CallIndexQuery "bmw-z3-guide" 15 sample_vector],
     Sent 200 (VArr sample_results)) ∧
  StronglySorted (λ a b, (score_of b ≤ score_of a)%Qc) sample_results ∧
  Forall (λ r, field r "score" = Some (VNum (score_of r))) sample_results.
Proof.
  assert (H : search host_undefined "development" (sample_globals sample_matches)
                (sample_body "idle speed")
              = ([CallPipe "idle speed"; CallIndexQuery "bmw-z3-guide" 15 sample_vector],
                 Sent 200 (VArr sample_results)))
    by (vm_compute; reflexivity).
  split; [exact H|].
  destruct (C4_results_ranked host_undefined _ _ _ _ _ _ H) as (H1 & H2 & _).
  split; [exact H1|exact H2].
Defined.

Lemma C5_unresolvable_tags_dropped_witness :
  truthy sample_guideData = true ∧
  reconcile host_undefined sample_guideData
    [ tagged_match (Q2Qc (3 # 5)) "Engine > 7";
      tagged_match (Q2Qc (1 # 2)) "Nowhere > 0";
      tagged_match (Q2Qc (2 # 5)) "Engine" ]
  = Ok [].
Proof.
  split; [reflexivity|].
  destruct (C5_unresolvable_tags_dropped host_undefined sample_guideData eq_refl)
    as (_ & _ & Hnone & _).
  apply Hnone.
  repeat (constructor; [eexists; split; [reflexivity|vm_compute; reflexivity]|]).
  constructor.
Defined.

(** [constructor] is no key of the [Tips] mapping, and the match is not
    dropped: the response has an object for it.  [constructor] is no
    category of the knowledge base either, and the tag
    [constructor > caller] raises an error: the read of [caller] on the
    inherited [Object] throws, and the request is answered 500 although
    another match resolves.  A match that has no metadata raises an error
    as well. *)
Lemma C5_counterexample :
  (get host_undefined sample_guideData "Tips"
   = Ok (VObj {[ "idle_speed" := VObj {[ "title" := VStr "Idle speed" ]};
                 "note" := VStr "" ]}) ∧
   ({[ "idle_speed" := VObj {[ "title" := VStr "Idle speed" ]};
       "note" := VStr "" ]} : gmap string value) !! "constructor" = None ∧
   reconcile host_undefined sample_guideData
     [ tagged_match (Q2Qc (9 # 10)) "Tips > constructor" ]
   = Ok [ VObj {[ "id" := VStr "constructor"; "score" := VNum (Q2Qc (9 # 10)) ]} ]) ∧
  (sample_categories !! "constructor" = None ∧
   get host_undefined sample_guideData "constructor" = Ok (VFunction "Object") ∧
   (∃ e, reconcile host_undefined sample_guideData
           [ tagged_match (Q2Qc (9 # 10)) "Engine > 1";
             tagged_match (Q2Qc (4 # 5)) "constructor > caller" ]
         = Throw e) ∧
   search host_undefined "production"
     (sample_globals [ tagged_match (Q2Qc (9 # 10)) "Engine > 1";
                       tagged_match (Q2Qc (4 # 5)) "constructor > caller" ])
     (sample_body "idle speed")
   = ([CallPipe "idle speed"; CallIndexQuery "bmw-z3-guide" 15 sample_vector],
      Sent 500 (VObj (<["details" := VUndefined]>
                        (<["error" := VStr "Failed to perform search."]> ∅)))) ∧
   ∃ e, reconcile host_undefined sample_guideData throwing_matches = Throw e).
Proof.
  split; [vm_compute; repeat split|].
  split_and!; [vm_compute; reflexivity..|eexists; vm_compute; reflexivity|
               vm_compute; reflexivity|eexists; vm_compute; reflexivity].
Qed.

Lemma C6_invalid_query_rejected_witness :
  invalid_request host_undefined (sample_body "   ") ∧
  ready (sample_globals sample_matches) ∧
  search host_undefined "development" (sample_globals sample_matches) (sample_body "   ")
  = ([], Sent 400 (VObj (<["error" := VStr "Valid query string is required"]> ∅))).
Proof.
  assert (Hinv : invalid_request host_undefined (sample_body "   ")).
  { right. exists (VStr "   "). split; [vm_compute; reflexivity|].
    right. right. exists "   ". split; reflexivity. }
  assert (Hready : ready (sample_globals sample_matches)).
  { split; [eexists; reflexivity|]. split; [eexists; reflexivity|reflexivity]. }
  split; [exact Hinv|]. split; [exact Hready|].
  destruct (C6_invalid_query_rejected host_undefined "development"
              (sample_globals sample_matches) _ Hinv) as (Hcalls & _ & Hsent).
  destruct (Hsent Hready) as [H400 _]. specialize (H400 eq_refl).
  destruct (search host_undefined "development" (sample_globals sample_matches)
              (sample_body "   ")) as [calls sent].
  simpl in Hcalls, H400. rewrite Hcalls, H400. reflexivity.
Defined.

(** A request without [query] before [initialize] has set the globals: 503.
    A request without body on a ready server: the handler throws, and
    sends no 400. *)
Lemma C6_counterexample :
  (get host_undefined (VObj ∅) "query" = Ok VUndefined ∧
   search host_undefined "development" globals_init (VObj ∅)
   = ([], Sent 503 (not_ready_body "Data not loaded"))) ∧
  (ready (sample_globals sample_matches) ∧
   ∃ message,
     search host_undefined "development" (sample_globals sample_matches) VUndefined
     = ([], Uncaught message)).
Proof.
  split; [vm_compute; split; reflexivity|].
  split; [|eexists; vm_compute; reflexivity].
  split; [eexists; reflexivity|]. split; [eexists; reflexivity|reflexivity].
Qed.

Lemma C7_initialization_failure_witness :
  initialize_try host_undefined sample_JSON_parse strict_Pinecone (Ok sample_pipe)
    (sample_environment None None) globals_init
  = ({| pinecone := None; pipe := None; guideData := sample_guideData |},
     Some "The client configuration must have required property: apiKey.") ∧
  initialize host_undefined sample_JSON_parse strict_Pinecone (Ok sample_pipe)
    (sample_environment None None)
  = Exited 1.
Proof.
  assert (H : initialize_try host_undefined sample_JSON_parse strict_Pinecone (Ok sample_pipe)
                (sample_environment None None) globals_init
              = ({| pinecone := None; pipe := None; guideData := sample_guideData |},
                 Some "The client configuration must have required property: apiKey."))
    by (vm_compute; reflexivity).
  split; [exact H|].
  destruct (C7_initialization_failure host_undefined _ _ _ _ _ _ H)
    as (Hmissing & _ & Hfail & _).
  destruct (Hfail (Hmissing (ex_intro _ _ eq_refl) eq_refl)) as [Hexit _].
  apply Hexit. vm_compute. discriminate.
Defined.

(** The credential is not set and [data.json] is good: the client refuses
    the missing key, initialization fails, and in production the server
    keeps running with the knowledge base loaded.  The search endpoint
    answers 503; the data endpoint, which depends on the data as well,
    answers 200. *)
Lemma C7_counterexample :
  initialize host_undefined sample_JSON_parse strict_Pinecone (Ok sample_pipe)
    (sample_environment None (Some "production"))
  = Running {| pinecone := None; pipe := None; guideData := sample_guideData |} ∧
  search host_undefined "production"
    {| pinecone := None; pipe := None; guideData := sample_guideData |}
    (sample_body "idle speed")
  = ([], Sent 503 (not_ready_body "AI services not initialized")) ∧
  data {| pinecone := None; pipe := None; guideData := sample_guideData |}
  = Sent 200 (VObj (<["bmw_z3_guide" := sample_guideData]> ∅)).
Proof. vm_compute. repeat split. Qed.

Lemma C8_result_fields_witness :
  search host_undefined "development" (sample_globals sample_matches)
    (sample_body "idle speed")
  = ([CallPipe "idle speed"; CallIndexQuery "bmw-z3-guide" 15 sample_vector],
     Sent 200 (VArr sample_results)) ∧
  ∃ matches,
    index_response host_undefined (sample_globals sample_matches)
      (sample_body "idle speed") matches ∧
    ∀ r, r ∈ sample_results →
      ∃ uniqueId i m tag guide,
        first_match host_undefined sample_guideData uniqueId matches = Some (i, m) ∧
        source m = Ok tag ∧
        resolve host_undefined sample_guideData tag = Ok (guide, uniqueId) ∧
        truthy guide = true ∧
        (∀ k v, k ≠ "score" → field guide k = Some v → field r k = Some v) ∧
        field r "score" = Some (VNum (score m)) ∧
        field r "id" = Some (default (of_option uniqueId) (field guide "id")).
Proof.
  assert (H : search host_undefined "development" (sample_globals sample_matches)
                (sample_body "idle speed")
              = ([CallPipe "idle speed"; CallIndexQuery "bmw-z3-guide" 15 sample_vector],
                 Sent 200 (VArr sample_results)))
    by (vm_compute; reflexivity).
  split; [exact H|].
  exact (C8_result_fields host_undefined _ _ _ _ _ _ H).
Defined.

(** The entry at [Parts > 0] has an [id] of its own: the result carries it,
    not the uniqueId [Parts-0]. *)
Lemma C8_counterexample :
  resolve host_undefined sample_guideData "Parts > 0"
  = Ok (VObj {[ "id" := VStr "oil-filter"; "title" := VStr "Oil filter" ]},
        Some "Parts-0") ∧
  search host_undefined "development"
    (sample_globals [ tagged_match (Q2Qc (9 # 10)) "Parts > 0" ])
    (sample_body "oil filter")
  = ([CallPipe "oil filter"; CallIndexQuery "bmw-z3-guide" 15 sample_vector],
     Sent 200 (VArr [ VObj {[ "id" := VStr "oil-filter"; "title" := VStr "Oil filter";
                              "score" := VNum (Q2Qc (9 # 10)) ]} ])).
Proof. vm_compute. split; reflexivity. Qed.

Lemma C9_inherited_property_resolves_witness :
  get host_undefined sample_guideData (ToString (category "Tips > constructor"))
  = Ok (VObj {[ "idle_speed" := VObj {[ "title" := VStr "Idle speed" ]};
                "note" := VStr "" ]}) ∧
  guideKeyOrIndex "Tips > constructor" = Some "constructor" ∧
  Object_prototype !! "constructor" = Some (VFunction "Object") ∧
  resolve host_undefined sample_guideData "Tips > constructor"
  = Ok (VFunction "Object", Some "constructor").
Proof.
  assert (H : get host_undefined sample_guideData (ToString (category "Tips > constructor"))
              = Ok (VObj {[ "idle_speed" := VObj {[ "title" := VStr "Idle speed" ]};
                            "note" := VStr "" ]}))
    by (vm_compute; reflexivity).
  assert (Hk : guideKeyOrIndex "Tips > constructor" = Some "constructor") by reflexivity.
  assert (Hb : Object_prototype !! "constructor" = Some (VFunction "Object"))
    by (vm_compute; reflexivity).
  split; [exact H|]. split; [exact Hk|]. split; [exact Hb|].
  refine (proj1 (C9_inherited_property_resolves host_undefined _ _ _ _ _ H Hk _ Hb)).
  vm_compute. reflexivity.
Defined.

Lemma C10_falsy_entry_dropped_witness :
  get host_undefined sample_guideData (ToString (category "Engine > 2"))
  = Ok (VArr [VObj {[ "title" := VStr "Oil change" ]};
              VObj {[ "title" := VStr "Idle" ]};
              VNull]) ∧
  truthy VNull = false ∧
  resolve host_undefined sample_guideData "Engine > 2" = Ok (VUndefined, None).
Proof.
  assert (H : get host_undefined sample_guideData (ToString (category "Engine > 2"))
              = Ok (VArr [VObj {[ "title" := VStr "Oil change" ]};
                          VObj {[ "title" := VStr "Idle" ]};
                          VNull]))
    by (vm_compute; reflexivity).
  split; [exact H|]. split; [reflexivity|].
  refine (proj1 (C10_falsy_entry_dropped host_undefined sample_guideData
                   (tagged_match (Q2Qc (1 # 2)) "Engine > 2") "Engine > 2" _ VNull
                   eq_refl H eq_refl _)).
  left. eexists _, 2%Z. split; [reflexivity|]. split; [reflexivity|].
  split; [discriminate|reflexivity].
Defined.

(** * Examples *)

(** The resolution examples: [Engine > 2] against an array category with an
    entry at index 2, [Engine > idle_speed] against a keyed category. *)
Lemma resolve_ordered_example host_prop kb l e :
  kb !! "Engine" = Some (VArr l) → l !! 2%nat = Some e → truthy e = true →
  resolve host_prop (VObj kb) "Engine > 2" = Ok (e, Some "Engine-2").
Proof.
  intros Hkb Hl He.
  assert (Hc : get host_prop (VObj kb) (ToString (category "Engine > 2")) = Ok (VArr l)).
  { change (ToString (category "Engine > 2")) with "Engine". simpl. by rewrite Hkb. }
  rewrite (resolve_array _ _ _ _ Hc).
  change (parseInt (ToString (guideKeyOrIndex "Engine > 2"))) with (Some 2%Z).
  cbv beta iota. rewrite (get_index_in_bounds l 2 e) by (done || lia).
  by rewrite He.
Qed.

Lemma resolve_keyed_example host_prop kb o e :
  kb !! "Engine" = Some (VObj o) → o !! "idle_speed" = Some e → truthy e = true →
  resolve host_prop (VObj kb) "Engine > idle_speed" = Ok (e, Some "idle_speed").
Proof.
  intros Hkb Ho He.
  assert (Hc : get host_prop (VObj kb) (ToString (category "Engine > idle_speed"))
               = Ok (VObj o)).
  { change (ToString (category "Engine > idle_speed")) with "Engine". simpl. by rewrite Hkb. }
  rewrite (resolve_keyed _ _ _ _ Hc).
  change (ToString (guideKeyOrIndex "Engine > idle_speed")) with "idle_speed".
  rewrite Ho. simpl. by rewrite He.
Qed.

Example split_tag : split " > " "Engine > 2" = ["Engine"; "2"].
Proof. reflexivity. Qed.

Example split_three : split " > " "a > b > c" = ["a"; "b"; "c"].
Proof. reflexivity. Qed.

Example split_no_delimiter : split " > " "Engine" = ["Engine"].
Proof. reflexivity. Qed.

Example split_empty_key : split " > " "Engine > " = ["Engine"; ""].
Proof. reflexivity. Qed.

Example parseInt_digits : parseInt "2" = Some 2%Z.
Proof. reflexivity. Qed.

Example parseInt_prefix : parseInt " 12abc" = Some 12%Z.
Proof. reflexivity. Qed.

Example parseInt_hex : parseInt "0x1F" = Some 31%Z.
Proof. reflexivity. Qed.

Example parseInt_negative : parseInt "-7" = Some (-7)%Z.
Proof. reflexivity. Qed.

Example parseInt_undefined : parseInt (ToString None) = None.
Proof. reflexivity. Qed.

Example trim_spaces : trim "  a b  " = "a b".
Proof. reflexivity. Qed.

(** A tag that names no category of the data, but a property that
    [Object.prototype] defines, is read through the host. *)
Example inherited_category host_prop :
  resolve host_prop sample_guideData "constructor > name" =
    if truthy (host_prop (VFunction "Object") "name")
    then Ok (host_prop (VFunction "Object") "name", Some "name")
    else Ok (VUndefined, None).
Proof. reflexivity. Qed.

(** The same category with the key [caller]: the read throws. *)
Example inherited_category_restricted host_prop :
  resolve host_prop sample_guideData "constructor > caller" = Throw restricted_message.
Proof. reflexivity. Qed.

(** A match without metadata, and matches whose [source] is missing or is
    not a string. *)
Example source_no_metadata s :
  source {| score := s; metadata := None |}
  = Throw "Cannot read properties of undefined (reading 'source')".
Proof. reflexivity. Qed.

Example source_missing s :
  source {| score := s; metadata := Some {[ "title" := VStr "Idle" ]} |}
  = Throw "Cannot read properties of undefined (reading 'split')".
Proof. reflexivity. Qed.

Example source_number s :
  source {| score := s; metadata := Some {[ "source" := VNum 1%Qc ]} |}
  = Throw "source.split is not a function".
Proof. reflexivity. Qed.

(** The sample run: seven matches, three results. *)
Example sample_run :
  reconcile host_undefined sample_guideData sample_matches = Ok sample_results.
Proof. vm_compute. reflexivity. Qed.

(** * Further properties *)

(** ** The split and the index of a tag *)

Lemma prefix_split sep s :
  String.prefix sep s = true → s = sep +:+ drop_string (String.length sep) s.
Proof.
  revert s. induction sep as [|a sep IH]; intros s.
  - by destruct s.
  - destruct s as [|b s]; cbn [String.prefix]; [done|].
    destruct (ascii_dec a b) as [->|]; [|done].
    intros H. rewrite append_cons. cbn [String.length drop_string]. f_equal. by apply IH.
Qed.

Lemma split_from_nonempty sep s : ∀ skip cur, split_from sep s skip cur ≠ [].
Proof.
  induction s as [|c s IH]; intros skip cur; cbn [split_from]; [done|].
  destruct skip; [|apply IH]. destruct (String.prefix sep (String c s)); [done|apply IH].
Qed.

Lemma join_cons sep x rest : rest ≠ [] → join sep (x :: rest) = x +:+ sep +:+ join sep rest.
Proof. by destruct rest. Qed.

Lemma split_from_join sep s : ∀ skip cur,
  sep ≠ "" →
  join sep (split_from sep s skip cur) =
    string_of_list_ascii (rev cur) +:+ drop_string skip s.
Proof.
  induction s as [|c s IH]; intros skip cur Hsep.
  - cbn [split_from join]. destruct skip; cbn [drop_string]; by rewrite append_empty_r.
  - cbn [split_from]. destruct skip as [|k].
    + destruct (String.prefix sep (String c s)) eqn:Hp.
      * rewrite join_cons by apply split_from_nonempty.
        rewrite IH by done. cbn [rev string_of_list_ascii]. 
        apply prefix_split in Hp. destruct sep as [|a sep]; [done|].
        rewrite append_cons in Hp. cbn [String.length drop_string] in Hp.
        injection Hp as <- Hs.
        change (String.length (String c sep) - 1) with (String.length sep - 0).
        rewrite Nat.sub_0_r. change ("" +:+ ?x) with x.
        rewrite append_cons. cbn [drop_string]. by rewrite <- Hs.
      * rewrite IH by done. cbn [rev drop_string].
        by rewrite string_of_list_ascii_snoc.
    + rewrite IH by done. reflexivity.
Qed.

(** X1: joining the parts of a source tag with the delimiter gives the tag
    back: the split loses nothing of it. *)
Theorem X1_pathParts_join source : join " > " (pathParts source) = source.
Proof. unfold pathParts, split. by rewrite split_from_join. Qed.

Lemma parse_digits_step radix c s acc d :
  digit_value c = Some d → (d <? radix)%Z = true →
  parse_digits radix (String c s) acc =
  parse_digits radix s (Some (default 0 acc * radix + d)%Z).
Proof. intros Hc Hd. cbn [parse_digits]. by rewrite Hc, Hd. Qed.

Lemma parse_digits_positive d : ∀ acc : positive,
  parse_digits 10 (NilEmpty.string_of_uint d) (Some (Z.pos acc)) =
  Some (Z.pos (Pos.of_uint_acc d acc)).
Proof.
  induction d; intros acc; cbn [NilEmpty.string_of_uint Pos.of_uint_acc];
    [done|..];
    (erewrite parse_digits_step; [|by vm_compute|done]);
    rewrite <- IHd; f_equal; cbn [default]; unfold id; f_equal; lia.
Qed.

Lemma parse_digits_zero d :
  parse_digits 10 (NilEmpty.string_of_uint d) (Some 0%Z) =
  Some (Z.of_N (Pos.of_uint d)).
Proof.
  induction d; cbn [NilEmpty.string_of_uint Pos.of_uint]; [done|..];
    (erewrite parse_digits_step; [|by vm_compute|done]);
    cbn [default]; unfold id; cbn [Z.mul Z.add]; [exact IHd|..]; apply parse_digits_positive.
Qed.

Lemma parse_digits_decimal d :
  d ≠ Decimal.Nil →
  parse_digits 10 (NilEmpty.string_of_uint d) None = Some (Z.of_N (Pos.of_uint d)).
Proof.
  destruct d; [done|..]; intros _; cbn [NilEmpty.string_of_uint Pos.of_uint];
    (erewrite parse_digits_step; [|by vm_compute|done]);
    cbn [default]; unfold id; cbn [Z.mul Z.add]; [apply parse_digits_zero|..];
    apply parse_digits_positive.
Qed.

Lemma parseInt_decimal d :
  d ≠ Decimal.Nil →
  parseInt (NilEmpty.string_of_uint d) =
  (λ n, (1 * n)%Z) <$> parse_digits 10 (NilEmpty.string_of_uint d) None.
Proof.
  destruct d as [|d|d|d|d|d|d|d|d|d|d]; [done|..]; intros _;
    destruct d; reflexivity.
Qed.

Lemma parseInt_decimal_negative d :
  d ≠ Decimal.Nil →
  parseInt (String "-" (NilEmpty.string_of_uint d)) =
  (λ n, (-1 * n)%Z) <$> parse_digits 10 (NilEmpty.string_of_uint d) None.
Proof.
  destruct d as [|d|d|d|d|d|d|d|d|d|d]; [done|..]; intros _;
    destruct d; reflexivity.
Qed.

Lemma NilZero_string_of_uint_nonnil d :
  d ≠ Decimal.Nil → NilZero.string_of_uint d = NilEmpty.string_of_uint d.
Proof. by destruct d. Qed.

(** The index that the template writes is read back by [parseInt]. *)
Lemma parseInt_number_to_string n : parseInt (number_to_string n) = Some n.
Proof.
  unfold number_to_string. destruct n as [|p|p]; [done|..];
    cbn [Z.to_int NilZero.string_of_int];
    pose proof (DecimalPos.Unsigned.to_uint_nonnil p) as Hp;
    rewrite NilZero_string_of_uint_nonnil by done.
  - rewrite parseInt_decimal, parse_digits_decimal by done.
    by rewrite DecimalPos.Unsigned.of_to.
  - rewrite parseInt_decimal_negative, parse_digits_decimal by done.
    by rewrite DecimalPos.Unsigned.of_to.
Qed.

Lemma number_to_string_inj n1 n2 : number_to_string n1 = number_to_string n2 → n1 = n2.
Proof.
  intros H. apply (f_equal parseInt) in H.
  rewrite !parseInt_number_to_string in H. congruence.
Qed.

Lemma contains_decimal d : contains ">" (NilEmpty.string_of_uint d) = false.
Proof. induction d; cbn [NilEmpty.string_of_uint contains]; [done|..]; by rewrite IHd. Qed.

Lemma contains_number_to_string n : contains ">" (number_to_string n) = false.
Proof.
  unfold number_to_string. destruct n as [|p|p]; [done|..];
    cbn [Z.to_int NilZero.string_of_int];
    rewrite NilZero_string_of_uint_nonnil by apply DecimalPos.Unsigned.to_uint_nonnil.
  - apply contains_decimal.
  - cbn [contains]. by rewrite contains_decimal.
Qed.

Lemma append_inj_r (a x y : string) : a +:+ x = a +:+ y → x = y.
Proof.
  induction a as [|c a IH]; [done|]. rewrite !append_cons. intros [= H]. by apply IH.
Qed.

Lemma pathParts_tag_more cat key rest :
  contains ">" cat = false → contains ">" key = false →
  pathParts (cat +:+ " > " +:+ key +:+ " > " +:+ rest) = cat :: key :: split " > " rest.
Proof.
  intros Hcat Hkey. unfold pathParts, split.
  rewrite split_from_tag by done. by rewrite split_from_tag.
Qed.

Section Tags.
Context (host_prop : value → string → value).

(** X2: for a category name without [>], the tag made of the name, the
    delimiter and the decimal writing of an index [n] resolves, in an array
    category, to the entry at [n] when that entry is truthy, with the
    uniqueId made of the name, a dash and the same decimal writing; the tag
    made of the name, the delimiter and a key without [>] resolves, in a
    keyed category, to the truthy entry under that key, with the key as
    uniqueId. *)
Theorem X2_tag_resolution kb cat :
  contains ">" cat = false →
  (∀ l n e,
     kb !! cat = Some (VArr l) →
     (0 ≤ n)%Z → l !! Z.to_nat n = Some e → truthy e = true →
     resolve host_prop (VObj kb) (cat +:+ " > " +:+ number_to_string n)
     = Ok (e, Some (cat +:+ "-" +:+ number_to_string n))) ∧
  (∀ o key e,
     kb !! cat = Some (VObj o) →
     contains ">" key = false → o !! key = Some e → truthy e = true →
     resolve host_prop (VObj kb) (cat +:+ " > " +:+ key) = Ok (e, Some key)).
Proof.
  intros Hcat. split.
  - intros l n e Hkb H0 Hl He.
    destruct (tag_parts cat (number_to_string n) Hcat (contains_number_to_string n))
      as [Hc Hk].
    assert (Hget : get host_prop (VObj kb)
                     (ToString (category (cat +:+ " > " +:+ number_to_string n)))
                   = Ok (VArr l)).
    { rewrite Hc. simpl. by rewrite Hkb. }
    rewrite (resolve_array _ _ _ _ Hget), Hk, Hc. cbn [ToString].
    rewrite parseInt_number_to_string, (get_index_in_bounds _ _ _ H0 Hl). by rewrite He.
  - intros o key e Hkb Hkey Ho He.
    destruct (tag_parts cat key Hcat Hkey) as [Hc Hk].
    assert (Hget : get host_prop (VObj kb) (ToString (category (cat +:+ " > " +:+ key)))
                   = Ok (VObj o)).
    { rewrite Hc. simpl. by rewrite Hkb. }
    rewrite (resolve_keyed _ _ _ _ Hget), Hk. cbn [ToString]. rewrite Ho. simpl.
    by rewrite He.
Qed.

(** X3: only the first two parts of a tag are read: what follows a second
    delimiter changes nothing. *)
Theorem X3_extra_segments_ignored guideData cat key rest :
  contains ">" cat = false → contains ">" key = false →
  resolve host_prop guideData (cat +:+ " > " +:+ key +:+ " > " +:+ rest)
  = resolve host_prop guideData (cat +:+ " > " +:+ key).
Proof.
  intros Hcat Hkey. unfold resolve, category, guideKeyOrIndex.
  by rewrite pathParts_tag_more, pathParts_tag.
Qed.

(** X4: within one category, array or keyed, two tags that resolve to the
    same uniqueId resolve to the same entry: the deduplication merges no two
    entries of a category. *)
Theorem X4_same_uniqueId_same_entry guideData s1 s2 c u g1 g2 :
  get host_prop guideData (ToString (category s1)) = Ok c →
  category s1 = category s2 →
  (∃ l, c = VArr l) ∨ (∃ o, c = VObj o) →
  resolved host_prop guideData s1 = Some (u, g1) →
  resolved host_prop guideData s2 = Some (u, g2) →
  g1 = g2.
Proof.
  intros Hc1 Hcat Hkind [Hr1 Ht1]%resolved_Some [Hr2 Ht2]%resolved_Some.
  assert (Hc2 : get host_prop guideData (ToString (category s2)) = Ok c)
    by (by rewrite <- Hcat).
  destruct Hkind as [[l ->]|[o ->]].
  - rewrite (resolve_array _ _ _ _ Hc1) in Hr1.
    rewrite (resolve_array _ _ _ _ Hc2) in Hr2.
    destruct (parseInt (ToString (guideKeyOrIndex s1))) as [i1|];
      [|simplify_eq; done].
    destruct (parseInt (ToString (guideKeyOrIndex s2))) as [i2|];
      [|simplify_eq; done].
    destruct (truthy (get_index (VArr l) i1)); [|simplify_eq; done].
    destruct (truthy (get_index (VArr l) i2)); [|simplify_eq; done].
    injection Hr1 as <- <-. injection Hr2 as <- Hu. rewrite <- Hcat in Hu.
    apply append_inj_r, append_inj_r, number_to_string_inj in Hu. by subst.
  - rewrite (resolve_keyed _ _ _ _ Hc1) in Hr1.
    rewrite (resolve_keyed _ _ _ _ Hc2) in Hr2. cbv zeta in Hr1, Hr2.
    repeat case_match; simplify_eq; congruence.
Qed.

End Tags.

Section Dedup.
Context (host_prop : value → string → value).

Lemma Map_has_foldl_keep guideData ms u :
  Map_has u (foldl (keep host_prop guideData) [] ms) = true ↔
  ∃ m, m ∈ ms ∧ resolves_to host_prop guideData u m.
Proof.
  destruct (loop_invariant_foldl host_prop guideData ms) as [_ Hfirst Hall _].
  rewrite Map_has_true. split.
  - rewrite map_is_fmap. intros ([u' r] & -> & Hin)%list_elem_of_fmap.
    destruct (Hfirst _ _ Hin) as (i & m & g & Hfm & Hres & _).
    apply list_find_Some in Hfm as (Hi & Hm & _).
    exists m. split; [by eapply list_elem_of_lookup_2|done].
  - intros (m & Hin & Hm). apply Hall. by eapply list_find_elem_of.
Qed.

(** X6: a match that resolves to a uniqueId that an earlier match of the
    list resolves to can be removed without changing the response, whatever
    its score. *)
Theorem X6_later_duplicate_dropped guideData before m after u :
  truthy guideData = true →
  resolves_to host_prop guideData u m →
  (∃ m0, m0 ∈ before ∧ resolves_to host_prop guideData u m0) →
  reconcile host_prop guideData (before ++ m :: after)
  = reconcile host_prop guideData (before ++ after).
Proof.
  intros Hgd Hm Hseen.
  assert (Hkeep : keep host_prop guideData (foldl (keep host_prop guideData) [] before) m
                  = foldl (keep host_prop guideData) [] before).
  { pose proof Hm as [g Hg]%resolves_to_resolved. unfold keep at 1. rewrite Hg.
    by rewrite (proj2 (Map_has_foldl_keep guideData before u) Hseen). }
  rewrite !reconcile_spec, !first_error_app.
  change (m :: after) with ([m] ++ after).
  rewrite first_error_app. unfold first_error at 2. simpl.
  rewrite (step_error_resolves_to _ _ _ _ Hm). simpl.
  rewrite !foldl_app. simpl. by rewrite Hkeep.
Qed.

(** X5: the uniqueId of an entry of a keyed category is the key alone, so
    the same key in two keyed categories is one uniqueId: of two matches for
    them, the response has the entry of the first one only. *)
Theorem X5_same_key_two_categories kb cat1 cat2 key o1 o2 e1 e2 m1 m2 :
  contains ">" cat1 = false → contains ">" cat2 = false → contains ">" key = false →
  kb !! cat1 = Some (VObj o1) → o1 !! key = Some e1 → truthy e1 = true →
  kb !! cat2 = Some (VObj o2) → o2 !! key = Some e2 → truthy e2 = true →
  source m1 = Ok (cat1 +:+ " > " +:+ key) →
  source m2 = Ok (cat2 +:+ " > " +:+ key) →
  reconcile host_prop (VObj kb) [m1; m2]
  = Ok [ result_object (Some key) e1 (score m1) ].
Proof.
  intros Hc1 Hc2 Hk Hkb1 Ho1 He1 Hkb2 Ho2 He2 Hs1 Hs2.
  assert (Hr : ∀ cat o e, contains ">" cat = false → kb !! cat = Some (VObj o) →
                 o !! key = Some e → truthy e = true →
                 resolve host_prop (VObj kb) (cat +:+ " > " +:+ key) = Ok (e, Some key)).
  { intros cat o e Hcat Hkb Ho He.
    destruct (tag_parts cat key Hcat Hk) as [Hc Hkey].
    assert (Hget : get host_prop (VObj kb) (ToString (category (cat +:+ " > " +:+ key)))
                   = Ok (VObj o)).
    { rewrite Hc. simpl. by rewrite Hkb. }
    rewrite (resolve_keyed _ _ _ _ Hget), Hkey. cbn [ToString]. rewrite Ho. simpl.
    by rewrite He. }
  assert (Hm : ∀ m cat o e, contains ">" cat = false → kb !! cat = Some (VObj o) →
                 o !! key = Some e → truthy e = true →
                 source m = Ok (cat +:+ " > " +:+ key) →
                 resolved_match host_prop (VObj kb) m = Some (Some key, e) ∧
                 step_error host_prop (VObj kb) m = None).
  { intros m cat o e Hcat Hkb Ho He Hs. split.
    - unfold resolved_match. rewrite Hs. apply resolved_Some. eauto.
    - eapply step_error_resolve; eauto. }
  destruct (Hm m1 cat1 o1 e1) as [Hk1 Hn1]; [done..|].
  destruct (Hm m2 cat2 o2 e2) as [Hk2 Hn2]; [done..|].
  rewrite reconcile_spec. unfold first_error. simpl. rewrite Hn1, Hn2. simpl.
  unfold keep. rewrite Hk1, Hk2.
  assert (H0 : Map_has (Some key) [] = false).
  { apply Map_has_false. apply not_elem_of_nil. }
  rewrite H0. cbn [app].
  assert (H1 : Map_has (Some key) [(Some key, result_object (Some key) e1 (score m1))] = true).
  { apply Map_has_true. apply list_elem_of_here. }
  by rewrite H1.
Qed.

End Dedup.

Section Ranking.
Context (host_prop : value → string → value).

(** X7: the response and the entries left out make up the values of the
    [Map], no entry left out has a higher score than a result, and entries
    are left out only when the response has five results. *)
Theorem X7_best_five guideData matches results :
  reconcile host_prop guideData matches = Ok results →
  ∃ retrievedGuides rest,
    retrieve_loop host_prop guideData [] matches = Ok retrievedGuides ∧
    results ++ rest ≡ₚ map snd retrievedGuides ∧
    (∀ r r', r ∈ results → r' ∈ rest → (score_of r' ≤ score_of r)%Qc) ∧
    (rest ≠ [] → length results = 5%nat).
Proof.
  intros [Hloop ->]%reconcile_inv.
  set (rg := foldl (keep host_prop guideData) [] matches) in *.
  exists rg, (drop 5 (sort compareFn (map snd rg))).
  split_and!; [done| | |].
  - by rewrite take_drop, sort_perm.
  - intros r r' Hr Hr'.
    pose proof (sort_descending score_of (map snd rg)) as Hsorted.
    change (sort (λ a b, (score_of b - score_of a)%Qc)) with (sort compareFn) in Hsorted.
    rewrite <- (take_drop 5 (sort compareFn (map snd rg))) in Hsorted.
    exact (StronglySorted_app_1_elem_of _ _ _ _ _ Hsorted Hr Hr').
  - intros Hrest. rewrite length_take.
    assert (5 < length (sort compareFn (map snd rg)))%nat; [|lia].
    destruct (decide (5 < length (sort compareFn (map snd rg)))%nat); [done|].
    destruct Hrest. apply drop_ge. lia.
Qed.

Lemma keys_uniqueIds guideData ms :
  map fst (foldl (keep host_prop guideData) [] ms)
  ≡ₚ remove_dups (uniqueIds host_prop guideData ms).
Proof.
  destruct (loop_invariant_foldl host_prop guideData ms) as [Hkeys _ _ _].
  apply NoDup_Permutation; [done|apply NoDup_remove_dups|].
  intros u. rewrite elem_of_remove_dups. unfold uniqueIds.
  rewrite list_elem_of_omap, <- Map_has_true, Map_has_foldl_keep. done.
Qed.

(** X8: the response has as many results as the matches resolve to
    different uniqueIds, up to five. *)
Theorem X8_result_count guideData matches results :
  reconcile host_prop guideData matches = Ok results →
  length results = (5 `min` length (remove_dups (uniqueIds host_prop guideData matches)))%nat.
Proof.
  intros [_ ->]%reconcile_inv.
  rewrite length_take, sort_length, length_map.
  rewrite <- (Permutation_length (keys_uniqueIds guideData matches)).
  by rewrite length_map.
Qed.

End Ranking.

Section SearchEndpoint.
Context (host_prop : value → string → value).

Lemma valid_query_test q :
  whitespace_only q = false →
  negb (truthy (VStr q)) || negb (is_string (VStr q))
  || bool_decide (String.length (trim (ToString_value (VStr q))) = 0%nat) = false.
Proof.
  intros Hq. cbn [truthy is_string ToString_value negb orb].
  assert (Htrim : trim q ≠ "").
  { intros H%trim_empty. congruence. }
  assert (Hne : q ≠ "") by (intros ->; done).
  rewrite (bool_decide_eq_false_2 (q = "")) by done. cbn [negb orb].
  apply bool_decide_eq_false_2. by destruct (trim q).
Qed.

(** The loop throws the error of a match that no match on which it throws
    comes before. *)
Lemma first_error_Some guideData ms e :
  first_error host_prop guideData ms = Some e ↔
  ∃ before m after,
    ms = before ++ m :: after ∧
    Forall (λ m0, step_error host_prop guideData m0 = None) before ∧
    step_error host_prop guideData m = Some e.
Proof.
  unfold first_error. induction ms as [|m0 ms IH]; simpl.
  - split; [done|]. intros ([|??] & ? & ? & ? & _); done.
  - destruct (step_error host_prop guideData m0) as [e0|] eqn:H0; simpl.
    + split.
      * intros [= ->]. exists [], m0, ms. split_and!; [done|constructor|done].
      * intros ([|b before] & m & after & Hms & Hall & Hm); simplify_eq/=;
          try congruence.
        apply Forall_cons in Hall as [Hb _]. congruence.
    + rewrite IH. split.
      * intros (before & m & after & -> & Hall & Hm).
        exists (m0 :: before), m, after. split_and!; [done|by constructor|done].
      * intros ([|b before] & m & after & Hms & Hall & Hm); simplify_eq/=;
          try congruence; apply Forall_cons in Hall as [_ Hall]; eauto 6.
Qed.

(** X9: on a ready server, a query with a character that is not white
    space is given unchanged to the embedding model.  The response is 200
    with the reconciled results when the model and the index answer and the
    loop throws on no match.  Otherwise it is 500 with the message of what
    threw first: the model, the index, or the first match on which the loop
    throws, which is a match without a string under [metadata.source] or a
    match whose tag makes the resolver read [caller] or [arguments] on a
    built-in function. *)
Theorem X9_valid_query_outcome node_env g body client p q :
  pinecone g = Some client → pipe g = Some p → truthy (guideData g) = true →
  get host_prop body "query" = Ok (VStr q) →
  whitespace_only q = false →
  (∃ queryVector matches results,
     p q = Ok queryVector ∧
     client PINECONE_INDEX_NAME 15%nat queryVector = Ok matches ∧
     Forall (λ m, step_error host_prop (guideData g) m = None) matches ∧
     reconcile host_prop (guideData g) matches = Ok results ∧
     (search host_prop node_env g body).2 = Sent 200 (VArr results)) ∨
  (∃ e,
     (p q = Throw e ∨
      (∃ queryVector, p q = Ok queryVector ∧
                      client PINECONE_INDEX_NAME 15%nat queryVector = Throw e) ∨
      (∃ queryVector before m after,
         p q = Ok queryVector ∧
         client PINECONE_INDEX_NAME 15%nat queryVector = Ok (before ++ m :: after) ∧
         Forall (λ m0, step_error host_prop (guideData g) m0 = None) before ∧
         step_error host_prop (guideData g) m = Some e ∧
         (no_source m ∨
          ∃ tag, source m = Ok tag ∧
            (restricted_read (guideData g) (ToString (category tag)) ∨
             ∃ c, get host_prop (guideData g) (ToString (category tag)) = Ok c ∧
                  restricted_read c (ToString (guideKeyOrIndex tag)))))) ∧
     (search host_prop node_env g body).2
     = error_500 node_env "Failed to perform search." e).
Proof.
  intros Hclient Hp Hgd Hq Hvalid. unfold search.
  rewrite Hclient, Hp, Hgd, Hq, (valid_query_test q Hvalid). cbn [ToString_value].
  destruct (p q) as [v|e] eqn:Hpq; [|right; exists e; eauto].
  destruct (client PINECONE_INDEX_NAME 15%nat v) as [ms|e] eqn:Hc;
    [|right; exists e; eauto 6].
  rewrite reconcile_spec.
  destruct (first_error host_prop (guideData g) ms) as [e|] eqn:Hfirst.
  - right. exists e. split; [|done]. right. right.
    apply first_error_Some in Hfirst as (before & m & after & -> & Hall & Hm).
    exists v, before, m, after. split_and!; [done..|].
    assert (Hsome : is_Some (step_error host_prop (guideData g) m)) by eauto.
    apply step_error_Some in Hsome as [?|(tag & Htag & Hthrow)]; [by left|].
    right. exists tag. split; [done|]. by apply resolve_throw in Hthrow.
  - left. exists v, ms. eexists.
    split_and!; [done|done|by apply first_error_None| |].
    + by rewrite reconcile_spec, Hfirst.
    + done.
Qed.

(** X10: unless [NODE_ENV] is [development], a 500 response of the search
    endpoint says nothing of the error: its body is the fixed message, with
    [details] undefined. *)
Theorem X10_no_detail_outside_development node_env g body calls b :
  node_env ≠ "development" →
  search host_prop node_env g body = (calls, Sent 500 b) →
  b = VObj (<["details" := VUndefined]>
              (<["error" := VStr "Failed to perform search."]> ∅)).
Proof.
  intros Hdev. unfold search, error_500.
  rewrite (bool_decide_eq_false_2 (node_env = "development")) by done.
  repeat case_match; intros [= <- <-]; done.
Qed.

(** X11: a request makes no call, or one call of the embedding model with
    the query of the body, followed, when the model answers, by one query of
    the index [bmw-z3-guide] for the 15 nearest neighbours of the vector the
    model returned. *)
Theorem X11_calls_in_order node_env g body :
  (search host_prop node_env g body).1 = [] ∨
  ∃ p q,
    pipe g = Some p ∧ get host_prop body "query" = Ok (VStr q) ∧
    match p q with
    | Ok queryVector =>
        (search host_prop node_env g body).1
        = [CallPipe q; CallIndexQuery "bmw-z3-guide" 15 queryVector]
    | Throw _ => (search host_prop node_env g body).1 = [CallPipe q]
    end.
Proof.
  unfold search.
  destruct (pinecone g) as [client|]; [|by left].
  destruct (pipe g) as [p|]; [|by left].
  destruct (truthy (guideData g)); [|by left].
  destruct (get host_prop body "query") as [query|e] eqn:Hq; [|by left].
  destruct (negb (truthy query) || negb (is_string query)
            || bool_decide (String.length (trim (ToString_value query)) = 0)) eqn:Hv;
    [by left|].
  apply orb_false_iff in Hv as [[_ Hs%negb_false_iff]%orb_false_iff _].
  destruct query as [| | | |q| | | |]; try discriminate. cbn [ToString_value].
  right. exists p, q. split_and!; [done|done|].
  destruct (p q) as [v|e]; [|done].
  destruct (client PINECONE_INDEX_NAME 15%nat v) as [ms|e]; [|done].
  by destruct (reconcile _ _ ms).
Qed.

(** X12: the search endpoint answers 503 exactly when the server is not
    ready.  It then makes no call, and [details] tells whether the data or
    the search services are missing. *)
Theorem X12_not_ready_iff node_env g body :
  (¬ ready g →
   search host_prop node_env g body
   = ([], Sent 503 (not_ready_body (if truthy (guideData g)
                                    then "AI services not initialized"
                                    else "Data not loaded")))) ∧
  (ready g → ∀ calls b, search host_prop node_env g body ≠ (calls, Sent 503 b)).
Proof.
  unfold ready, search, error_500. split.
  - intros Hnot.
    destruct (pinecone g) as [client|]; [|by destruct (pipe g), (truthy (guideData g))].
    destruct (pipe g) as [p|]; [|by destruct (truthy (guideData g))].
    destruct (truthy (guideData g)); [|done].
    destruct Hnot. eauto.
  - intros ([client ->] & [p ->] & ->) calls b.
    repeat case_match; intros [= ]; done.
Qed.

(** X13: on a ready server, a request whose body is [undefined] or [null]
    makes the handler throw: line 69 reads [req.body.query] before the
    [try] block. *)
Theorem X13_missing_body_throws node_env g body :
  ready g → nullish body = true →
  ∃ message, search host_prop node_env g body = ([], Uncaught message).
Proof.
  intros ([client Hc] & [p Hp] & Hgd) Hbody. unfold search.
  rewrite Hc, Hp, Hgd. destruct body; try discriminate; simpl; eauto.
Qed.

End SearchEndpoint.

Section InitializeFacts.
Context (host_prop : value → string → value).
Context (JSON_parse : string → except value).
Context (new_Pinecone : option string → except Pinecone).
Context (load_pipeline : except pipeline).

#[local] Abbreviation try_block :=
  (initialize_try host_prop JSON_parse new_Pinecone load_pipeline).
#[local] Abbreviation startup_of :=
  (initialize host_prop JSON_parse new_Pinecone load_pipeline).

Lemma NODE_ENV_production e :
  NODE_ENV e = "production" ↔ env_NODE_ENV e = Some "production".
Proof.
  unfold NODE_ENV. destruct (env_NODE_ENV e) as [s|]; [|done].
  case_bool_decide as Hs; [subst; done|]. split; congruence.
Qed.

(** X14: [initialize] ends the process exactly when its [try] block fails
    and [process.env.NODE_ENV] is not [production] (not set and empty
    included); the exit code is 1. *)
Theorem X14_exit_iff e code :
  startup_of e = Exited code ↔
  code = 1%nat ∧ (∃ g message, try_block e globals_init = (g, Some message)) ∧
  env_NODE_ENV e ≠ Some "production".
Proof.
  unfold initialize. rewrite <- NODE_ENV_production.
  destruct (try_block e globals_init) as [g [msg|]].
  - case_bool_decide as Hprod; simpl; split.
    + intros [=].
    + intros (_ & _ & Hne). by destruct Hne.
    + intros [= <-]. split_and!; eauto.
    + by intros (-> & _).
  - split; [intros [=]|]. intros (_ & (g' & msg & [=]) & _).
Qed.

(** X15: the [try] block of [initialize] completes exactly when the
    credential is not the placeholder, [data.json] exists and its
    [bmw_z3_guide] is neither [undefined] nor [null], and the client and the
    pipeline are built; the globals then hold that value, the client and
    the pipeline. *)
Theorem X15_initialize_complete e g :
  try_block e globals_init = (g, None) ↔
  env_PINECONE_API_KEY e ≠ Some "YOUR_API_KEY" ∧
  ∃ text client p,
    data_json e = Some text ∧
    (parsed ← JSON_parse text; get host_prop parsed "bmw_z3_guide") = Ok (guideData g) ∧
    nullish (guideData g) = false ∧
    new_Pinecone (env_PINECONE_API_KEY e) = Ok client ∧
    load_pipeline = Ok p ∧
    g = {| pinecone := Some client; pipe := Some p; guideData := guideData g |}.
Proof.
  unfold initialize_try. split.
  - intros H. case_bool_decide as Hkey; [discriminate|].
    destruct (data_json e) as [text|]; [|discriminate].
    destruct (JSON_parse text ≫= _) as [kb|err] eqn:Hparse; [|discriminate].
    destruct (nullish kb) eqn:Hnull; [discriminate|].
    destruct (new_Pinecone _) as [client|err]; [|discriminate].
    destruct load_pipeline as [p|err]; [|discriminate].
    injection H as <-. simpl. split; [done|].
    exists text, client, p. done.
  - intros (Hkey & text & client & p & Htext & Hparse & Hnull & Hclient & Hpipe & Hg).
    rewrite (bool_decide_eq_false_2 _ Hkey), Htext, Hparse, Hnull, Hclient, Hpipe.
    simpl. by rewrite Hg.
Qed.

(** X16: whatever the data endpoint serves with 200 after [initialize] is
    the [bmw_z3_guide] of [data.json], whether or not the search services
    were built. *)
Theorem X16_data_served_from_file e g b :
  startup_of e = Running g →
  data g = Sent 200 b →
  ∃ text,
    data_json e = Some text ∧
    (parsed ← JSON_parse text; get host_prop parsed "bmw_z3_guide") = Ok (guideData g) ∧
    b = VObj (<["bmw_z3_guide" := guideData g]> ∅).
Proof.
  unfold initialize, initialize_try, data. intros Hinit Hdata.
  destruct (truthy (guideData g)) eqn:Hgd; [|discriminate].
  injection Hdata as <-.
  repeat (case_match; simplify_eq/=); eauto.
Qed.

(** X17: after a complete initialization the server is ready exactly when
    the knowledge base is truthy: a [bmw_z3_guide] that is [0], [false] or
    the empty string is loaded without error and leaves the search endpoint
    at 503. *)
Theorem X17_ready_iff_data_truthy e g :
  try_block e globals_init = (g, None) →
  (ready g ↔ truthy (guideData g) = true) ∧
  (truthy (guideData g) = false →
   ∀ node_env body,
     search host_prop node_env g body = ([], Sent 503 (not_ready_body "Data not loaded"))).
Proof.
  unfold initialize_try. intros H.
  case_bool_decide as Hkey; [discriminate|].
  destruct (data_json e) as [text|]; [|discriminate].
  destruct (JSON_parse text ≫= _) as [kb|err] eqn:Hparse; [|discriminate].
  destruct (nullish kb) eqn:Hnull; [discriminate|].
  destruct (new_Pinecone _) as [client|err]; [|discriminate].
  destruct load_pipeline as [p|err]; [|discriminate].
  injection H as <-. unfold ready. simpl. split.
  - split; [by intros (_ & _ & ?)|]. intros Hkb. split_and!; eauto.
  - intros Hkb node_env body. unfold search. simpl. by rewrite Hkb.
Qed.

End InitializeFacts.

(** * The further properties on the sample data *)

Lemma X2_tag_resolution_witness :
  contains ">" "Engine" = false ∧
  resolve host_undefined sample_guideData ("Engine" +:+ " > " +:+ number_to_string 1)
  = Ok (VObj {[ "title" := VStr "Idle" ]},
        Some ("Engine" +:+ "-" +:+ number_to_string 1)).
Proof.
  split; [reflexivity|].
  refine (proj1 (X2_tag_resolution host_undefined _ "Engine" eq_refl)
            [VObj {[ "title" := VStr "Oil change" ]};
             VObj {[ "title" := VStr "Idle" ]};
             VNull]
            1%Z (VObj {[ "title" := VStr "Idle" ]}) _ Z.le_0_1 eq_refl eq_refl).
  vm_compute. reflexivity.
Defined.

Lemma X3_extra_segments_ignored_witness :
  contains ">" "Engine" = false ∧ contains ">" "1" = false ∧
  resolve host_undefined sample_guideData "Engine > 1 > torque"
  = resolve host_undefined sample_guideData "Engine > 1".
Proof.
  split; [reflexivity|]. split; [reflexivity|].
  exact (X3_extra_segments_ignored host_undefined sample_guideData
           "Engine" "1" "torque" eq_refl eq_refl).
Defined.

Lemma X4_same_uniqueId_same_entry_witness :
  get host_undefined sample_guideData (ToString (category "Engine > 1"))
  = Ok (VArr [VObj {[ "title" := VStr "Oil change" ]};
              VObj {[ "title" := VStr "Idle" ]};
              VNull]) ∧
  category "Engine > 1" = category "Engine > 01" ∧
  resolved host_undefined sample_guideData "Engine > 1"
  = Some (Some "Engine-1", VObj {[ "title" := VStr "Idle" ]}) ∧
  resolved host_undefined sample_guideData "Engine > 01"
  = Some (Some "Engine-1", VObj {[ "title" := VStr "Idle" ]}).
Proof.
  assert (Hc : get host_undefined sample_guideData (ToString (category "Engine > 1"))
               = Ok (VArr [VObj {[ "title" := VStr "Oil change" ]};
                           VObj {[ "title" := VStr "Idle" ]};
                           VNull]))
    by (vm_compute; reflexivity).
  assert (H1 : resolved host_undefined sample_guideData "Engine > 1"
               = Some (Some "Engine-1", VObj {[ "title" := VStr "Idle" ]}))
    by (vm_compute; reflexivity).
  assert (H2 : resolved host_undefined sample_guideData "Engine > 01"
               = Some (Some "Engine-1", VObj {[ "title" := VStr "Idle" ]}))
    by (vm_compute; reflexivity).
  pose proof (X4_same_uniqueId_same_entry host_undefined sample_guideData
                "Engine > 1" "Engine > 01" _ _ _ _ Hc eq_refl
                (or_introl (ex_intro _ _ eq_refl)) H1 H2) as Hsame.
  split; [exact Hc|]. split; [reflexivity|]. split; [exact H1|exact H2].
Defined.

Lemma X5_same_key_two_categories_witness :
  contains ">" "Tips" = false ∧ contains ">" "Specs" = false ∧
  contains ">" "oil" = false ∧
  reconcile host_undefined twin_guideData
    [ tagged_match (Q2Qc (4 # 5)) "Tips > oil";
      tagged_match (Q2Qc (9 # 10)) "Specs > oil" ]
  = Ok [ VObj {[ "id" := VStr "oil"; "title" := VStr "Oil tip";
                 "score" := VNum (Q2Qc (4 # 5)) ]} ].
Proof.
  split; [reflexivity|]. split; [reflexivity|]. split; [reflexivity|].
  refine (eq_trans
            (X5_same_key_two_categories host_undefined _ "Tips" "Specs" "oil"
               {[ "oil" := VObj {[ "title" := VStr "Oil tip" ]} ]}
               {[ "oil" := VObj {[ "title" := VStr "Oil spec" ]} ]}
               (VObj {[ "title" := VStr "Oil tip" ]})
               (VObj {[ "title" := VStr "Oil spec" ]})
               (tagged_match (Q2Qc (4 # 5)) "Tips > oil")
               (tagged_match (Q2Qc (9 # 10)) "Specs > oil")
               eq_refl eq_refl eq_refl _ _ eq_refl _ _ eq_refl eq_refl eq_refl) _);
    vm_compute; reflexivity.
Defined.

Lemma X6_later_duplicate_dropped_witness :
  truthy sample_guideData = true ∧
  resolves_to host_undefined sample_guideData (Some "Engine-1")
    (tagged_match (Q2Qc (9 # 10)) "Engine > 01") ∧
  reconcile host_undefined sample_guideData
    ([ tagged_match (Q2Qc (1 # 2)) "Engine > 1" ]
     ++ tagged_match (Q2Qc (9 # 10)) "Engine > 01"
     :: [ tagged_match (Q2Qc (2 # 5)) "Engine > 0" ])
  = reconcile host_undefined sample_guideData
      ([ tagged_match (Q2Qc (1 # 2)) "Engine > 1" ]
       ++ [ tagged_match (Q2Qc (2 # 5)) "Engine > 0" ]).
Proof.
  assert (Hm : resolves_to host_undefined sample_guideData (Some "Engine-1")
                 (tagged_match (Q2Qc (9 # 10)) "Engine > 01"))
    by (vm_compute; reflexivity).
  split; [reflexivity|]. split; [exact Hm|].
  apply (X6_later_duplicate_dropped host_undefined sample_guideData _ _ _
           (Some "Engine-1") eq_refl Hm).
  exists (tagged_match (Q2Qc (1 # 2)) "Engine > 1").
  split; [apply list_elem_of_here|vm_compute; reflexivity].
Defined.

Lemma X7_best_five_witness :
  reconcile host_undefined sample_guideData sample_matches = Ok sample_results ∧
  ∃ retrievedGuides rest,
    retrieve_loop host_undefined sample_guideData [] sample_matches = Ok retrievedGuides ∧
    sample_results ++ rest ≡ₚ map snd retrievedGuides ∧
    (∀ r r', r ∈ sample_results → r' ∈ rest → (score_of r' ≤ score_of r)%Qc) ∧
    (rest ≠ [] → length sample_results = 5%nat).
Proof.
  assert (H : reconcile host_undefined sample_guideData sample_matches = Ok sample_results)
    by (vm_compute; reflexivity).
  split; [exact H|].
  exact (X7_best_five host_undefined _ _ _ H).
Defined.

Lemma X8_result_count_witness :
  reconcile host_undefined sample_guideData sample_matches = Ok sample_results ∧
  length sample_results
  = (5 `min` length (remove_dups (uniqueIds host_undefined sample_guideData sample_matches)))%nat.
Proof.
  assert (H : reconcile host_undefined sample_guideData sample_matches = Ok sample_results)
    by (vm_compute; reflexivity).
  split; [exact H|].
  exact (X8_result_count host_undefined _ _ _ H).
Defined.

(** A run in which the loop throws: the second match has no metadata. *)
Lemma X9_valid_query_outcome_witness :
  get host_undefined (sample_body " idle speed ") "query" = Ok (VStr " idle speed ") ∧
  whitespace_only " idle speed " = false ∧
  search host_undefined "development" (sample_globals throwing_matches)
    (sample_body " idle speed ")
  = ([CallPipe " idle speed "; CallIndexQuery "bmw-z3-guide" 15 sample_vector],
     error_500 "development" "Failed to perform search."
       "Cannot read properties of undefined (reading 'source')") ∧
  ((∃ queryVector matches results,
      sample_pipe " idle speed " = Ok queryVector ∧
      sample_client throwing_matches PINECONE_INDEX_NAME 15%nat queryVector = Ok matches ∧
      Forall (λ m, step_error host_undefined sample_guideData m = None) matches ∧
      reconcile host_undefined sample_guideData matches = Ok results ∧
      (search host_undefined "development" (sample_globals throwing_matches)
         (sample_body " idle speed ")).2 = Sent 200 (VArr results)) ∨
   (∃ e,
      (sample_pipe " idle speed " = Throw e ∨
       (∃ queryVector,
          sample_pipe " idle speed " = Ok queryVector ∧
          sample_client throwing_matches PINECONE_INDEX_NAME 15%nat queryVector = Throw e) ∨
       (∃ queryVector before m after,
          sample_pipe " idle speed " = Ok queryVector ∧
          sample_client throwing_matches PINECONE_INDEX_NAME 15%nat queryVector
          = Ok (before ++ m :: after) ∧
          Forall (λ m0, step_error host_undefined sample_guideData m0 = None) before ∧
          step_error host_undefined sample_guideData m = Some e ∧
          (no_source m ∨
           ∃ tag, source m = Ok tag ∧
             (restricted_read sample_guideData (ToString (category tag)) ∨
              ∃ c, get host_undefined sample_guideData (ToString (category tag)) = Ok c ∧
                   restricted_read c (ToString (guideKeyOrIndex tag)))))) ∧
      (search host_undefined "development" (sample_globals throwing_matches)
         (sample_body " idle speed ")).2
      = error_500 "development" "Failed to perform search." e)).
Proof.
  assert (Hq : get host_undefined (sample_body " idle speed ") "query"
               = Ok (VStr " idle speed ")) by (vm_compute; reflexivity).
  split; [exact Hq|]. split; [reflexivity|]. split; [vm_compute; reflexivity|].
  exact (X9_valid_query_outcome host_undefined "development"
           (sample_globals throwing_matches)
           (sample_body " idle speed ") _ _ " idle speed "
           eq_refl eq_refl eq_refl Hq eq_refl).
Defined.

Lemma X10_no_detail_outside_development_witness :
  "production" ≠ "development" ∧
  search host_undefined "production"
    {| pinecone := Some failing_client; pipe := Some failing_pipe;
       guideData := sample_guideData |}
    (sample_body "idle speed")
  = ([CallPipe "idle speed"],
     Sent 500 (VObj (<["details" := VUndefined]>
                       (<["error" := VStr "Failed to perform search."]> ∅)))).
Proof.
  assert (Hne : "production" ≠ "development") by discriminate.
  assert (H : search host_undefined "production"
                {| pinecone := Some failing_client; pipe := Some failing_pipe;
                   guideData := sample_guideData |}
                (sample_body "idle speed")
              = ([CallPipe "idle speed"],
                 Sent 500 (VObj (<["details" := VUndefined]>
                                   (<["error" := VStr "Failed to perform search."]> ∅)))))
    by (vm_compute; reflexivity).
  pose proof (X10_no_detail_outside_development host_undefined _ _ _ _ _ Hne H) as Hbody.
  split; [exact Hne|exact H].
Defined.

Lemma X13_missing_body_throws_witness :
  ready (sample_globals sample_matches) ∧
  nullish VUndefined = true ∧
  ∃ message,
    search host_undefined "development" (sample_globals sample_matches) VUndefined
    = ([], Uncaught message).
Proof.
  assert (Hready : ready (sample_globals sample_matches)).
  { split; [eexists; reflexivity|]. split; [eexists; reflexivity|reflexivity]. }
  split; [exact Hready|]. split; [reflexivity|].
  exact (X13_missing_body_throws host_undefined "development" _ VUndefined Hready eq_refl).
Defined.

Lemma X16_data_served_from_file_witness :
  initialize host_undefined sample_JSON_parse strict_Pinecone (Ok sample_pipe)
    (sample_environment None (Some "production"))
  = Running {| pinecone := None; pipe := None; guideData := sample_guideData |} ∧
  data {| pinecone := None; pipe := None; guideData := sample_guideData |}
  = Sent 200 (VObj (<["bmw_z3_guide" := sample_guideData]> ∅)) ∧
  ∃ text,
    data_json (sample_environment None (Some "production")) = Some text ∧
    (parsed ← sample_JSON_parse text; get host_undefined parsed "bmw_z3_guide")
    = Ok sample_guideData.
Proof.
  assert (Hinit : initialize host_undefined sample_JSON_parse strict_Pinecone (Ok sample_pipe)
                    (sample_environment None (Some "production"))
                  = Running {| pinecone := None; pipe := None;
                               guideData := sample_guideData |})
    by (vm_compute; reflexivity).
  assert (Hdata : data {| pinecone := None; pipe := None; guideData := sample_guideData |}
                  = Sent 200 (VObj (<["bmw_z3_guide" := sample_guideData]> ∅)))
    by reflexivity.
  split; [exact Hinit|]. split; [exact Hdata|].
  destruct (X16_data_served_from_file host_undefined _ _ _ _ _ _ Hinit Hdata)
    as (text & Htext & Hparse & _).
  exists text. split; [exact Htext|exact Hparse].
Defined.

Lemma X17_ready_iff_data_truthy_witness :
  initialize_try host_undefined zero_JSON_parse strict_Pinecone (Ok sample_pipe)
    (sample_environment (Some "pc-key") None) globals_init
  = ({| pinecone := Some (sample_client sample_matches); pipe := Some sample_pipe;
        guideData := VNum 0%Qc |}, None) ∧
  search host_undefined "development"
    {| pinecone := Some (sample_client sample_matches); pipe := Some sample_pipe;
       guideData := VNum 0%Qc |}
    (sample_body "idle speed")
  = ([], Sent 503 (not_ready_body "Data not loaded")).
Proof.
  assert (H : initialize_try host_undefined zero_JSON_parse strict_Pinecone (Ok sample_pipe)
                (sample_environment (Some "pc-key") None) globals_init
              = ({| pinecone := Some (sample_client sample_matches);
                    pipe := Some sample_pipe; guideData := VNum 0%Qc |}, None))
    by reflexivity.
  split; [exact H|].
  destruct (X17_ready_iff_data_truthy host_undefined _ _ _ _ _ H) as [_ Hsearch].
  exact (Hsearch eq_refl "development" (sample_body "idle speed")).
Defined.
